(** * giro: discovery and parsing of the GIRO branch-code directory

    A shallow embedding of [giro.go] (package [giro]) and the properties
    of its record normalizer, its parsers, its format dispatcher and its
    document locator.

    Go strings are byte strings: they are modelled by [string], whose
    characters are the 8-bit [ascii] values, so [String.length] is Go's
    [len].  Go's [int] results that can be [-1] are modelled in [Z].

    The first part holds the definitions: the library functions the
    package calls, the package's functions, the predicates the theorems
    use and some concrete inputs.  The second part holds the theorems. *)

From Stdlib Require Import ZArith Ascii DecimalString.
From stdpp Require Import list strings.

Local Open Scope Z_scope.

(** ** Package [strings] / [bytes]: the functions the program calls *)

Module GoStrings.

Definition code (c : ascii) : N := N_of_ascii c.

(** [unicode.IsSpace] on the one-byte runes below [utf8.RuneSelf]:
    tab, line feed, vertical tab, form feed, carriage return, space. *)
Definition asciiSpace (c : ascii) : bool :=
  let n := code c in
  (((9 <=? n) && (n <=? 13)) || (n =? 32))%N.

(** The two-byte UTF-8 encodings of white space: U+0085 and U+00A0. *)
Definition space2 (c1 c2 : ascii) : bool :=
  ((code c1 =? 194) && ((code c2 =? 133) || (code c2 =? 160)))%N.

(** The three-byte UTF-8 encodings of white space: U+1680,
    U+2000..U+200A, U+2028, U+2029, U+202F, U+205F and U+3000. *)
Definition space3 (c1 c2 c3 : ascii) : bool :=
  (((code c1 =? 225) && (code c2 =? 154) && (code c3 =? 128))
   || ((code c1 =? 226) && (code c2 =? 128)
       && (((128 <=? code c3) && (code c3 <=? 138))
           || (code c3 =? 168) || (code c3 =? 169) || (code c3 =? 175)))
   || ((code c1 =? 226) && (code c2 =? 129) && (code c3 =? 159))
   || ((code c1 =? 227) && (code c2 =? 128) && (code c3 =? 128)))%N.

(** Width in bytes of the white-space rune a byte sequence starts
    with, [0] when it starts with none.  The three tests are given as
    parameters so that the same scan serves from either end. *)
Section Scan.
Variable s1 : ascii → bool.
Variable s2 : ascii → ascii → bool.
Variable s3 : ascii → ascii → ascii → bool.

Definition spaceWidth (l : list ascii) : nat :=
  match l with
  | c1 :: r1 =>
      if s1 c1 then 1%nat
      else match r1 with
           | c2 :: r2 =>
               if s2 c1 c2 then 2%nat
               else match r2 with
                    | c3 :: _ => if s3 c1 c2 c3 then 3%nat else 0%nat
                    | [] => 0%nat
                    end
           | [] => 0%nat
           end
  | [] => 0%nat
  end.

(** Drop white-space runes while there is one in front. *)
Fixpoint trimRunes (l : list ascii) : list ascii :=
  match l with
  | c1 :: r1 =>
      if s1 c1 then trimRunes r1
      else match r1 with
           | c2 :: r2 =>
               if s2 c1 c2 then trimRunes r2
               else match r2 with
                    | c3 :: r3 => if s3 c1 c2 c3 then trimRunes r3 else l
                    | [] => l
                    end
           | [] => l
           end
  | [] => []
  end.
End Scan.

(** [strings.TrimLeftFunc(s, unicode.IsSpace)] on the bytes. *)
Definition trimLeft (l : list ascii) : list ascii :=
  trimRunes asciiSpace space2 space3 l.

(** [strings.TrimRightFunc(s, unicode.IsSpace)]: the same scan from
    the last byte backwards. *)
Definition trimRight (l : list ascii) : list ascii :=
  rev (trimRunes asciiSpace (λ a b, space2 b a) (λ a b c, space3 c b a)
         (rev l)).

(** [strings.TrimSpace] (and [bytes.TrimSpace]). *)
Definition TrimSpace (s : string) : string :=
  String.string_of_list_ascii
    (trimRight (trimLeft (String.list_ascii_of_string s))).

(** [strings.ReplaceAll(s, old, new)] for a one-byte [old]. *)
Fixpoint ReplaceAll (s : string) (old : ascii) (new : string) : string :=
  match s with
  | EmptyString => EmptyString
  | String c r =>
      if Ascii.eqb c old then new +:+ ReplaceAll r old new
      else String c (ReplaceAll r old new)
  end.

(** [strings.IndexByte]: index of the first [c], [-1] when absent. *)
Fixpoint IndexByte (s : string) (c : ascii) : Z :=
  match s with
  | EmptyString => -1
  | String d r =>
      if Ascii.eqb d c then 0
      else let i := IndexByte r c in if i <? 0 then -1 else i + 1
  end.

(** [s[:n]] and [s[n:]]; every use in the program is guarded so that
    [n] is within the string. *)
Fixpoint sliceTo (n : nat) (s : string) : string :=
  match n, s with
  | S m, String c r => String c (sliceTo m r)
  | _, _ => EmptyString
  end.

Fixpoint sliceFrom (n : nat) (s : string) : string :=
  match n, s with
  | S m, String _ r => sliceFrom m r
  | _, _ => s
  end.

(** The predicate of [checkAppend]'s [IndexFunc]: a rune that is not a
    decimal digit.  On bytes: every byte outside ['0'..'9'], which
    covers the bytes of every multi-byte rune. *)
Definition notDigit (c : ascii) : bool :=
  negb ((48 <=? code c) && (code c <=? 57))%N.

(** [strings.IndexFunc]: index of the first byte satisfying [f]. *)
Fixpoint IndexFunc (s : string) (f : ascii → bool) : Z :=
  match s with
  | EmptyString => -1
  | String d r =>
      if f d then 0
      else let i := IndexFunc r f in if i <? 0 then -1 else i + 1
  end.

(** [strings.HasPrefix]. *)
Fixpoint HasPrefix (s p : string) {struct p} : bool :=
  match p, s with
  | EmptyString, _ => true
  | String a p', String b s' => Ascii.eqb a b && HasPrefix s' p'
  | String _ _, EmptyString => false
  end.
Global Arguments HasPrefix : simpl never.

(** [strings.Contains]. *)
Fixpoint Contains (s sub : string) : bool :=
  HasPrefix s sub
  || match s with
     | EmptyString => false
     | String _ r => Contains r sub
     end.

(** [strings.HasSuffix]. *)
Definition HasSuffix (s suf : string) : bool :=
  HasPrefix (String.rev s) (String.rev suf).

End GoStrings.

Import GoStrings.

(** [len(s)] as a Go [int]. *)
Definition len (s : string) : Z := Z.of_nat (String.length s).

(** ** Errors

    An [error] value is a tree: sentinels and foreign leaves, wrapped by
    [fmt.Errorf] with [%w] and joined by [errors.Join].  [None] in an
    [option error] is Go's [nil]. *)

#[warnings="-register-all"]
Inductive error : Type :=
| ErrNotFound                                   (* errors.New("not found") *)
| EOF                                           (* io.EOF *)
| errorString (msg : string)                    (* a leaf: errors.New, fmt.Errorf without %w *)
| Wrap (prefix : string) (err : error)          (* fmt.Errorf("%s: %w", prefix, err) *)
| Wrap2 (err1 : error) (err2 : option error)    (* fmt.Errorf("%w: %w", err1, err2) *)
| Join (errs : list error).                     (* errors.Join of a non-empty list *)

(** [errors.Join]: [nil] when there is no error to join. *)
Definition errors_Join (errs : list error) : option error :=
  match errs with
  | [] => None
  | _ => Some (Join errs)
  end.

(** [err.Error()]. *)
Fixpoint Error (e : error) : string :=
  match e with
  | ErrNotFound => "not found"
  | EOF => "EOF"
  | errorString msg => msg
  | Wrap prefix err => prefix +:+ ": " +:+ Error err
  | Wrap2 err1 err2 =>
      Error err1 +:+ ": " +:+
      match err2 with
      | Some err => Error err
      | None => "%!w(<nil>)"
      end
  | Join errs =>
      (fix lines (l : list error) : string :=
         match l with
         | [] => ""
         | [err] => Error err
         | err :: l' => Error err +:+ String "010" (lines l')
         end) errs
  end.


(** ** Run-time panics

    An index expression out of range stops the Go program, and so does
    a field access through a nil pointer.  [Panic i n] is "index out of
    range [i] with length n", [PanicNil] is "invalid memory address or
    nil pointer dereference". *)

Inductive Outcome (A : Type) : Type :=
| Ret (a : A)
| Panic (index length : nat)
| PanicNil.
Arguments Ret {A} a.
Arguments Panic {A} index length.
Arguments PanicNil {A}.

(** The monad of computations that may panic, with stdpp's notation
    [x ← m; k]. *)
Global Instance Outcome_ret : MRet Outcome := λ A a, Ret a.
Global Instance Outcome_bind : MBind Outcome := λ A B k m,
  match m with
  | Ret a => k a
  | Panic i n => Panic i n
  | PanicNil => PanicNil
  end.

Definition panics {A : Type} (m : Outcome A) : bool :=
  match m with
  | Ret _ => false
  | Panic _ _ | PanicNil => true
  end.

(** [row[i]] on a slice of strings. *)
Definition index (row : list string) (i : nat) : Outcome string :=
  match row !! i with
  | Some s => Ret s
  | None => Panic i (length row)
  end.

(** ** The record *)

Record Hitelezo : Type := mkHitelezo {
  Bankszerv : string;
  BIC : string;
  Nev : string;
  Irszam : string;
  Cim : string
}.

Global Instance Hitelezo_eq_dec : EqDecision Hitelezo.
Proof. solve_decision. Defined.

(** [Hitelezo{}] *)
Definition zeroHitelezo : Hitelezo := mkHitelezo "" "" "" "" "".

Global Instance Hitelezo_inhabited : Inhabited Hitelezo :=
  populate zeroHitelezo.

(** ** [checkAppend] *)

(** The assignment in the loop over the four field pointers. *)
Definition cleanField (p : string) : string :=
  TrimSpace (ReplaceAll p "000"%char "").

(** The record as [checkAppend] has it when it reaches the test for
    appending: the four fields cleaned, then the postal code split off
    the address. *)
Definition normalize (rec : Hitelezo) : Hitelezo :=
  let rec := mkHitelezo (cleanField (Bankszerv rec)) (BIC rec)
               (cleanField (Nev rec)) (cleanField (Irszam rec))
               (cleanField (Cim rec)) in
  if String.eqb (Irszam rec) "" && (5 <? len (Cim rec)) then
    if (IndexByte (Cim rec) " " =? 4)
       && (IndexFunc (sliceTo 4 (Cim rec)) notDigit <? 0)
    then mkHitelezo (Bankszerv rec) (BIC rec) (Nev rec)
           (sliceTo 4 (Cim rec)) (sliceFrom 5 (Cim rec))
    else rec
  else rec.

(** The test for appending. *)
Definition accepted (rec : Hitelezo) : bool :=
  bool_decide (rec ≠ zeroHitelezo) && (len (Bankszerv rec) =? 8).

Definition checkAppend (records : list Hitelezo) (rec : Hitelezo)
  : list Hitelezo :=
  let rec := normalize rec in
  if accepted rec then records ++ [rec] else records.

(** ** The external collaborators

    The table-extraction program, the text-extraction program, the two
    spreadsheet decoders and the HTTP client are not part of the
    package.  What each of them hands to the package is described by a
    record; the functions below are the package's own code over these
    records. *)

(** A run of the table-extraction program on a PDF, as
    [parsePDFTabula] sees it. *)
Record TabulaRun : Type := {
  tabula_setup : option error;      (* a step before the CSV loop failed: the error returned *)
  tabula_rows : list (list string); (* the records cr.Read() returns before it stops *)
  tabula_stop : option error;       (* how cr.Read() stops: None is io.EOF *)
  tabula_wait : option error        (* cmd.Wait() *)
}.

(** A run of [pdftotext - -]. *)
Record PdfToTextRun : Type := {
  pdftotext_pipe : option error;    (* cmd.StdoutPipe() *)
  pdftotext_start : option error;   (* cmd.Start() *)
  pdftotext_stdout : string;
  pdftotext_wait : option error     (* cmd.Wait() *)
}.

(** An opened workbook of [excelize]: the result of [wb.Rows] on the
    first sheet and the rows [rows.Columns()] returns before the sheet
    ends or a row fails. *)
Record XlsxBook : Type := {
  xlsx_Rows : option error;
  xlsx_rows : list (list string)
}.

(** An opened workbook of [xls] (version 0.0.1).  A sheet holds the
    rows the file has, by row number, and [MaxRow], the largest of
    these numbers. *)
Record XlsRow : Type := {
  FirstCol : nat;
  Col : nat → string
}.

Record XlsSheet : Type := {
  MaxRow : nat;
  rows : nat → option XlsRow        (* the map w.rows *)
}.

Record XlsBook : Type := {
  GetSheet0 : option XlsSheet
}.

(** An [io.Reader]: the bytes it delivers and the error, if any, that
    ends the stream instead of [io.EOF]. *)
Record Reader : Type := {
  content : string;
  failure : option error
}.

Record Env : Type := {
  DownloadFile : string → error + Reader;
  tabula : string → TabulaRun;
  pdftotext : string → PdfToTextRun;
  excelize_OpenReader : string → error + XlsxBook;
  xls_OpenReader : string → error + XlsBook;
  Seek : option error;              (* r.Seek(0, 0) *)
  (* iohlp.MakeSectionReader on a stream that reaches the threshold,
     which goes through a temporary file *)
  spill : Reader → error + string
}.

(** A [context.Context] as the parsers use it: [ctx k] is what the
    [k]-th poll of [ctx.Done()] in a parser sees, [Some err] when the
    context is done, with [err] its [ctx.Err()]. *)
Definition Context : Type := nat → option error.

Definition Background : Context := λ _, None.

(** ** [parsePDFTabula] *)

Fixpoint tabulaLoop (rows : list (list string)) (hit : list Hitelezo)
  : Outcome (list Hitelezo) :=
  match rows with
  | [] => mret hit
  | row :: rows' =>
      r0 ← index row 0;
      r1 ← index row 1;
      r2 ← index row 2;
      r3 ← index row 3;
      tabulaLoop rows' (hit ++ [mkHitelezo r0 "" r1 r2 r3])
  end.

Definition parsePDFTabula (run : TabulaRun)
  : Outcome (list Hitelezo * option error) :=
  match tabula_setup run with
  | Some err => mret ([], Some err)
  | None =>
      hit ← tabulaLoop (tabula_rows run) [];
      match tabula_stop run with
      | Some err => mret (hit, Some (Wrap "read csv" err))
      | None => mret (hit, tabula_wait run)
      end
  end.

(** ** [parseTXT] *)

(** [bufio.Scanner] with the default split function [bufio.ScanLines]:
    the tokens are the lines without their line feed and without one
    carriage return before it; a last line without line feed is a token
    when it is not empty; scanning stops at a line that does not fit
    the buffer of [bufio.MaxScanTokenSize] bytes.  [acc] holds the bytes
    of the line in progress, last byte first, and [n] is their number. *)
Definition MaxScanTokenSize : Z := 65536.

Definition dropCR (acc : string) : string :=
  match acc with
  | String c r => if Ascii.eqb c "013" then String.rev r else String.rev acc
  | EmptyString => EmptyString
  end.

Fixpoint scanFrom (s : string) (acc : string) (n : Z) : list string :=
  match s with
  | EmptyString => if n =? 0 then [] else [dropCR acc]
  | String c r =>
      if Ascii.eqb c "010" then dropCR acc :: scanFrom r EmptyString 0
      else if n + 1 =? MaxScanTokenSize then []
      else scanFrom r (String c acc) (n + 1)
  end.

Definition ScanLines (r : string) : list string := scanFrom r EmptyString 0.

(** The closure [processLines]: the buffered lines of a page are four
    columns of [cols] lines each; it leaves [lines] empty. *)
Definition processLines (records : list Hitelezo) (lines : list string)
  : list Hitelezo :=
  let cols := (length lines / 4)%nat in
  foldl (λ records i,
           checkAppend records
             (mkHitelezo (lines !!! (0 * cols + i)%nat) ""
                (lines !!! (1 * cols + i)%nat)
                (lines !!! (2 * cols + i)%nat)
                (lines !!! (3 * cols + i)%nat)))
        records (seq 0 cols).

Definition isDigit (c : ascii) : bool :=
  ((48 <=? code c) && (code c <=? 57))%N.

(** The scanning loop, on the tokens still to come, with the loop's
    three variables; its result is what [parseTXT] returns as records
    (the call of [processLines] after the loop included). *)
Fixpoint txtLoop (tokens : list string) (records : list Hitelezo)
    (lines : list string) (numberSeen : bool) : list Hitelezo :=
  match tokens with
  | [] => processLines records lines
  | line :: tokens' =>
      match line with
      | EmptyString => txtLoop tokens' records lines numberSeen
      | String c rest =>
          let numberSeen := numberSeen || isDigit c in
          if negb numberSeen then txtLoop tokens' records lines numberSeen
          else if Contains line "nyes Egyszer" || HasSuffix line " oldal"
          then txtLoop tokens' records lines numberSeen
          else if Ascii.eqb c "012" then
            let records := processLines records lines in
            let lines := [] in
            if len rest =? 0 then processLines records lines
            else txtLoop tokens' records (lines ++ [TrimSpace line]) numberSeen
          else txtLoop tokens' records (lines ++ [TrimSpace line]) numberSeen
      end
  end.

Definition parseTXT (r : string) : list Hitelezo * option error :=
  (txtLoop (ScanLines r) [] [] false, None).

(** ** [parsePDFPdfToText] and [ParsePDF] *)

Definition parsePDFPdfToText (run : PdfToTextRun)
  : list Hitelezo * option error :=
  match pdftotext_pipe run with
  | Some err => ([], Some err)
  | None =>
      match pdftotext_start run with
      | Some err => ([], Some (Wrap "[pdftotext - -]" err))
      | None =>
          let '(hit, err) := parseTXT (pdftotext_stdout run) in
          match pdftotext_wait run, err with
          | Some waitErr, None =>
              (hit, Some (Wrap "[pdftotext - -]" waitErr))
          | _, _ => (hit, err)
          end
      end
  end.

Definition ParsePDF (env : Env) (r : string)
  : Outcome (list Hitelezo * option error) :=
  '(hit, err) ← parsePDFTabula (tabula env r);
  match err with
  | None => mret (hit, None)
  | Some _ => mret (parsePDFPdfToText (pdftotext env r))
  end.

(** ** [ParseXLSX] *)

(** The targets of the pointers in [dst]. *)
Inductive Field : Type := fBankszerv | fBIC | fNev | fIrszam | fCim.

(** [*p = v] with [p] pointing into [rec]. *)
Definition store (p : Field) (v : string) (rec : Hitelezo) : Hitelezo :=
  match p with
  | fBankszerv => mkHitelezo v (BIC rec) (Nev rec) (Irszam rec) (Cim rec)
  | fBIC => mkHitelezo (Bankszerv rec) v (Nev rec) (Irszam rec) (Cim rec)
  | fNev => mkHitelezo (Bankszerv rec) (BIC rec) v (Irszam rec) (Cim rec)
  | fIrszam => mkHitelezo (Bankszerv rec) (BIC rec) (Nev rec) v (Cim rec)
  | fCim => mkHitelezo (Bankszerv rec) (BIC rec) (Nev rec) (Irszam rec) v
  end.

(** [for j, p := range dst { *p = row[j] }], from index [j] on. *)
Fixpoint assignFrom (j : nat) (dst : list Field) (row : list string)
    (rec : Hitelezo) : Outcome Hitelezo :=
  match dst with
  | [] => mret rec
  | p :: dst' =>
      v ← index row j;
      assignFrom (S j) dst' row (store p v rec)
  end.

(** The loop over the rows, with the loop's variables; [k] counts the
    polls of the context made so far. *)
Fixpoint xlsxLoop (ctx : Context) (rows : list (list string)) (k : nat)
    (headerSkipped : bool) (dst : list Field) (rec : Hitelezo)
    (records : list Hitelezo) : Outcome (list Hitelezo * option error) :=
  match rows with
  | [] => mret (records, None)
  | row :: rows' =>
      if negb headerSkipped then
        cell ← index row 3;
        let noIrszam := String.eqb cell "Address of the branch office" in
        let dst := if noIrszam then [fBankszerv; fBIC; fNev; fCim] else dst in
        xlsxLoop ctx rows' k true dst rec records
      else
        rec ← assignFrom 0 dst row rec;
        let records := checkAppend records rec in
        match ctx k with
        | Some err => mret (records, Some err)
        | None => xlsxLoop ctx rows' (S k) headerSkipped dst rec records
        end
  end.

Definition ParseXLSX (ctx : Context) (opened : error + XlsxBook)
  : Outcome (list Hitelezo * option error) :=
  match opened with
  | inl err => mret ([], Some err)
  | inr wb =>
      match xlsx_Rows wb with
      | Some err => mret ([], Some err)
      | None =>
          xlsxLoop ctx (xlsx_rows wb) 0 false
            [fBankszerv; fNev; fIrszam; fCim] zeroHitelezo []
      end
  end.

(** ** [ParseXLS] *)

Definition skip : nat := 1.

(** [sheet.Row(n)] of this version of the decoder: it looks the row up
    and sets a field of it before it returns it, without asking whether
    the sheet has the row; on a row the sheet does not have this is a
    nil pointer dereference. *)
Definition Row (sheet : XlsSheet) (n : nat) : Outcome (option XlsRow) :=
  match rows sheet n with
  | Some row => Ret (Some row)
  | None => PanicNil
  end.

(** The loop over the row numbers still to visit. *)
Fixpoint xlsLoop (ctx : Context) (sheet : XlsSheet) (ns : list nat) (k : nat)
    (dst : list Field) (rec : Hitelezo) (records : list Hitelezo)
  : Outcome (list Hitelezo * option error) :=
  match ns with
  | [] => mret (records, None)
  | n :: ns' =>
      row ← Row sheet n;
      match row with
      | None => xlsLoop ctx sheet ns' k dst rec records
      | Some row =>
          if (n <? skip)%nat then xlsLoop ctx sheet ns' k dst rec records
          else
            let off := FirstCol row in
            let rec := foldl (λ rec '(j, p), store p (Col row (off + j)%nat) rec)
                         rec (imap pair dst) in
            let records := checkAppend records rec in
            match ctx k with
            | Some err => mret (records, Some err)
            | None => xlsLoop ctx sheet ns' (S k) dst rec records
            end
      end
  end.

Definition ParseXLS (ctx : Context) (env : Env) (r : string)
  : Outcome (list Hitelezo * option error) :=
  match xls_OpenReader env r with
  | inl _ =>
      match Seek env with
      | Some err => mret ([], Some err)
      | None => ParseXLSX ctx (excelize_OpenReader env r)
      end
  | inr wb =>
      match GetSheet0 wb with
      | None =>
          mret ([], Some (errorString
                            "this XLS file does not contain sheet no 0"))
      | Some sheet =>
          xlsLoop ctx sheet (seq 0 (MaxRow sheet)) 0
            [fBankszerv; fNev; fIrszam; fCim] zeroHitelezo []
      end
  end.

(** ** [Parse] *)

Definition DefaultXLSXURL : string := "https://www.mnb.hu/letoltes/sht.xlsx".

(** [iohlp.MakeSectionReader]: the whole stream, readable at any
    offset.  A stream shorter than the threshold is read into memory,
    and its failure is the constructor's, wrapped; a longer stream is
    written to a temporary file, which is up to the environment. *)
Definition MakeSectionReader (spill : Reader → error + string) (r : Reader)
    (threshold : Z) : error + string :=
  if len (content r) <? threshold then
    match failure r with
    | Some err => inl (Wrap "read below threshold" err)
    | None => inr (content r)
    end
  else spill r.

(** [sr.ReadAt(a[:], 0)] of [io.SectionReader] for an array of [size]
    bytes: the bytes read and, when there are fewer than [size], the
    error [io.EOF]. *)
Definition ReadAt (sr : string) (size : nat) : string * option error :=
  if len sr <? Z.of_nat size then (sr, Some EOF)
  else (sliceTo size sr, None).

(** The condition of the loop that closes [Parse]. *)
Definition incomplete (h : Hitelezo) : bool :=
  String.eqb (Bankszerv h) "" || String.eqb (Nev h) ""
  || (String.eqb (Irszam h) "" && String.eqb (Cim h) "").

(** The loop that closes [Parse], from index [i] on.  An iteration
    either moves to the next index or overwrites [hit[i]] with the last
    element, drops the last element and looks at index [i] again
    ([i--] then [i++]).  [len(hit) - i] decreases by one per
    iteration, so [fuel = len(hit) - i] iterations end the loop. *)
Fixpoint cleanupLoop (fuel : nat) (hit : list Hitelezo) (i : nat)
  : list Hitelezo :=
  match fuel with
  | O => hit
  | S fuel' =>
      match hit !! i with
      | None => hit
      | Some h =>
          if incomplete h then
            let hit := <[i := hit !!! (length hit - 1)%nat]> hit in
            let hit := take (length hit - 1) hit in
            cleanupLoop fuel' hit i
          else cleanupLoop fuel' hit (S i)
      end
  end.

Definition cleanup (hit : list Hitelezo) : list Hitelezo :=
  cleanupLoop (length hit) hit 0.

(** The condition for trying [ParseXLS] after [ParseXLSX]. *)
Definition fallsBack (err : option error) : bool :=
  match err with
  | Some e =>
      Contains (Error e) "not a valid zip" || Contains (Error e) "unsupported"
  | None => false
  end.

Definition Parse (env : Env) (ctx : Context) (r : option Reader)
  : Outcome (list Hitelezo * option error) :=
  let opened :=
    match r with
    | None => DownloadFile env DefaultXLSXURL
    | Some r => inr r
    end in
  match opened with
  | inl err => mret ([], Some err)
  | inr r =>
      match MakeSectionReader (spill env) r (Z.shiftl 1 20) with
      | inl err => mret ([], Some err)
      | inr sr =>
          match ReadAt sr 1024 with
          | (_, Some err) => mret ([], Some err)
          | (b, None) =>
              if HasPrefix b "%PDF-1" then ParsePDF env sr
              else
                '(hit, err) ← ParseXLSX ctx (excelize_OpenReader env sr);
                '(hit, err) ← (if fallsBack err then ParseXLS ctx env sr
                               else mret (hit, err));
                mret (cleanup hit, err)
          end
      end
  end.

(** ** Package [regexp]: patterns and [MatchString]

    A pattern is given in parsed form.  [MatchString] asks whether some
    substring of the text matches, which only depends on the language
    of the pattern, so it is decided here with derivatives.  [Dot] is
    one byte other than a line feed; under a star, the only place where
    the program's pattern has it, that is the same as runs of runes
    other than a line feed.  Without the flag [m], [^] and [$] hold at
    the two ends of the text only. *)

Module Regexp.

Inductive regex : Type :=
| Fail                                (* matches nothing *)
| Eps                                 (* the empty string *)
| Chr (c : ascii)
| Range (lo hi : ascii)               (* [lo-hi] *)
| Dot                                 (* . *)
| AnyByte
| Seq (r1 r2 : regex)
| Alt (r1 r2 : regex)                 (* r1|r2 *)
| Star (r : regex)                    (* r* *)
| Bol                                 (* ^ *)
| Eol.                                (* $ *)

(** [r{n}] *)
Fixpoint Rep (n : nat) (r : regex) : regex :=
  match n with
  | O => Eps
  | S m => Seq r (Rep m r)
  end.

(** [r?] *)
Definition Opt (r : regex) : regex := Alt r Eps.

(** A literal. *)
Fixpoint Lit (s : string) : regex :=
  match s with
  | EmptyString => Eps
  | String c r => Seq (Chr c) (Lit r)
  end.

(** Does [r] match the empty string at a position that is at the
    beginning ([bol]) or at the end ([eol]) of the text? *)
Fixpoint nullable (bol eol : bool) (r : regex) : bool :=
  match r with
  | Fail | Chr _ | Range _ _ | Dot | AnyByte => false
  | Eps | Star _ => true
  | Seq r1 r2 => nullable bol eol r1 && nullable bol eol r2
  | Alt r1 r2 => nullable bol eol r1 || nullable bol eol r2
  | Bol => bol
  | Eol => eol
  end.

Definition seq' (r1 r2 : regex) : regex :=
  match r1, r2 with
  | Fail, _ => Fail
  | _, Fail => Fail
  | Eps, _ => r2
  | _, _ => Seq r1 r2
  end.

Definition alt' (r1 r2 : regex) : regex :=
  match r1, r2 with
  | Fail, _ => r2
  | _, Fail => r1
  | _, _ => Alt r1 r2
  end.

(** What remains to be matched after the byte [c], read at a position
    that is at the beginning of the text when [bol] holds. *)
Fixpoint deriv (c : ascii) (bol : bool) (r : regex) : regex :=
  match r with
  | Fail | Eps | Bol | Eol => Fail
  | Chr d => if Ascii.eqb c d then Eps else Fail
  | Range lo hi =>
      if ((code lo <=? code c) && (code c <=? code hi))%N then Eps else Fail
  | Dot => if Ascii.eqb c "010" then Fail else Eps
  | AnyByte => Eps
  | Seq r1 r2 =>
      alt' (seq' (deriv c bol r1) r2)
           (if nullable bol false r1 then deriv c bol r2 else Fail)
  | Alt r1 r2 => alt' (deriv c bol r1) (deriv c bol r2)
  | Star r1 => seq' (deriv c bol r1) (Star r1)
  end.

(** Does [r] match the whole of [s], which starts at the beginning of
    the text when [bol] holds and ends at the end of the text? *)
Fixpoint matchWhole (r : regex) (s : string) (bol : bool) : bool :=
  match s with
  | EmptyString => nullable bol true r
  | String c s' => matchWhole (deriv c bol r) s' false
  end.

(** [regexp.MatchString]: some substring of [s] matches [r]. *)
Definition MatchString (r : regex) (s : string) : bool :=
  matchWhole (Seq (Star AnyByte) (Seq r (Star AnyByte))) s true.

End Regexp.

Import Regexp.

(** [DefaultPattern], parsed:
[[
^(.*-xls-.*$|EHT_([0-9]{8}|[0-9]{4}[_-][0-9]{2}[_-][0-9]{2}|2[0-9]{5})\.(pdf|xlsx?)|AVT_[0-9]{2}_[0-9]{2}_2[0-9]{3}\.(pdf|xlsx?))$
]] *)
Definition digit : regex := Range "0" "9".
Definition sep : regex := Alt (Chr "_") (Chr "-").
Definition extension : regex :=
  Alt (Lit "pdf") (Seq (Lit "xls") (Opt (Chr "x"))).

Definition DefaultPattern : regex :=
  Seq Bol
    (Seq
       (Alt (Seq (Star Dot) (Seq (Lit "-xls-") (Seq (Star Dot) Eol)))
          (Alt
             (Seq (Lit "EHT_")
                (Seq
                   (Alt (Rep 8 digit)
                      (Alt
                         (Seq (Rep 4 digit)
                            (Seq sep (Seq (Rep 2 digit)
                                        (Seq sep (Rep 2 digit)))))
                         (Seq (Chr "2") (Rep 5 digit))))
                   (Seq (Chr ".") extension)))
             (Seq (Lit "AVT_")
                (Seq (Rep 2 digit)
                   (Seq (Chr "_")
                      (Seq (Rep 2 digit)
                         (Seq (Chr "_")
                            (Seq (Chr "2")
                               (Seq (Rep 3 digit)
                                  (Seq (Chr ".") extension))))))))))
       Eol).

(** ** [SearchXLSURL] *)

(** [path.Base]: the last element of a slash-separated path, trailing
    slashes removed first; ["."] for the empty path and ["/"] for a path
    of slashes only.  The scan works on the reversed path. *)
Fixpoint stripSlashes (rpath : string) : string :=
  match rpath with
  | String c r => if Ascii.eqb c "/" then stripSlashes r else rpath
  | EmptyString => EmptyString
  end.

Fixpoint untilSlash (rpath : string) : string :=
  match rpath with
  | String c r => if Ascii.eqb c "/" then EmptyString else String c (untilSlash r)
  | EmptyString => EmptyString
  end.

Definition path_Base (path : string) : string :=
  if String.eqb path "" then "."
  else
    let element := untilSlash (stripSlashes (String.rev path)) in
    if String.eqb element "" then "/" else String.rev element.

(** The [less] function handed to [sort.Slice]. *)
Definition lessBase (a b : string) : bool :=
  String.ltb (path_Base a) (path_Base b).

(** What the HTML tokenizer yields: the start tags with their
    attributes in order; every other kind of token is skipped by the
    program. *)
Inductive Token : Type :=
| StartTagToken (tagName : string) (attrs : list (string * string))
| OtherToken.

(** The response to the request for the index page. *)
Record IndexResponse : Type := {
  StatusCode : Z;
  Status : string;
  Body : string;
  tokens : list Token;        (* the tokens before the ErrorToken *)
  tokenErr : option error     (* z.Err() at the ErrorToken: None is io.EOF *)
}.

(** A parsed URL, as far as the program looks at it. *)
Record URL : Type := {
  Scheme : string;
  URL_String : string
}.

Definition IsAbs (u : URL) : bool := negb (String.eqb (Scheme u) "").

(** The response to a request that does not follow redirects. *)
Record Response : Type := {
  resp_StatusCode : Z;
  Location : string           (* resp.Header.Get("Location") *)
}.

(** The network and the scheduler, as [SearchXLSURL] meets them. *)
Record World : Type := {
  index_NewRequest : option error;          (* http.NewRequest for the index page *)
  index_Do : error + IndexResponse;         (* http.DefaultClient.Do *)
  url_Parse : string → error + URL;
  http_NewRequest : string → option error;
  (* the i-th task's calls of noRedir.Do: the errors of the calls that
     failed, in order, and the response of the call that succeeded,
     None when the retries stopped without one *)
  noRedir_Do : nat → list error * option Response;
  (* which task makes its next step, step after step; the tasks still
     running when the list ends finish one after the other *)
  schedule : list nat
}.

(** The attributes of one anchor tag that become candidates. *)
Definition hrefs (attrs : list (string * string)) : list string :=
  flat_map (λ '(k, v),
              if String.eqb k "href" && Contains v "/documents/"
                 && (IndexByte v " " <? 0)
              then [v] else [])
           attrs.

Definition candidatesOf (toks : list Token) : list string :=
  flat_map (λ tok,
              match tok with
              | StartTagToken tagName attrs =>
                  if negb (Nat.eqb (length attrs) 0) && String.eqb tagName "a"
                  then hrefs attrs else []
              | OtherToken => []
              end)
           toks.

(** What a task does to the state shared by the tasks: it reads
    [errs] and it assigns to [errs], which are the two steps of
    [errs = append(errs, err)], made without a lock; it offers a
    location to [resultsCh]; it returns an error to the group. *)
Inductive Event : Type :=
| Read
| Assign (err : error)
| Offer (loc : string)
| Return (err : error).

(** The function started by [grp.Go] for the [i]-th candidate [v]. *)
Definition task (w : World) (rPattern : regex) (i : nat) (v : string)
  : list Event :=
  match url_Parse w v with
  | inl _ => []
  | inr sub =>
      if negb (negb (String.eqb (Scheme sub) "") && IsAbs sub) then []
      else
        let u := sub in
        match http_NewRequest w (URL_String u) with
        | Some err => [Return (Wrap (URL_String u) err)]
        | None =>
            let '(failed, resp) := noRedir_Do w i in
            flat_map (λ err, [Read; Assign (Wrap (URL_String u) err)]) failed
            ++ match resp with
               | None => []
               | Some resp =>
                   if negb (resp_StatusCode resp =? 302) then []
                   else
                     let loc := Location resp in
                     let bn := path_Base loc in
                     if String.eqb bn "" then []
                     else if MatchString rPattern bn then [Offer loc]
                     else []
               end
        end
  end.

(** The steps of the tasks in the order in which they happen, each
    with the number of its task. *)
Fixpoint interleave (sched : list nat) (tasks : list (list Event))
  : list (nat * Event) :=
  match sched with
  | [] => concat (imap (λ i t, pair i <$> t) tasks)
  | i :: sched' =>
      match tasks !! i with
      | Some (ev :: rest) =>
          (i, ev) :: interleave sched' (<[i := rest]> tasks)
      | _ => interleave sched' tasks
      end
  end.

(** The state shared by the tasks, and what each task has read of
    [errs] for the [append] it is about to finish. *)
Record Shared : Type := mkShared {
  resultsCh : list string;      (* make(chan string, 1024) *)
  errs : list error;
  groupErr : option error;      (* what grp.Wait() returns *)
  seen : nat → list error
}.

Definition step (st : Shared) (iev : nat * Event) : Shared :=
  let '(i, ev) := iev in
  match ev with
  | Read =>
      mkShared (resultsCh st) (errs st) (groupErr st)
        (λ j, if Nat.eqb j i then errs st else seen st j)
  | Assign err =>
      mkShared (resultsCh st) (seen st i ++ [err]) (groupErr st) (seen st)
  | Offer loc =>
      (* select { case resultsCh <- loc: default: } *)
      if (length (resultsCh st) <? 1024)%nat
      then mkShared (resultsCh st ++ [loc]) (errs st) (groupErr st) (seen st)
      else st
  | Return err =>
      match groupErr st with
      | Some _ => st
      | None => mkShared (resultsCh st) (errs st) (Some err) (seen st)
      end
  end.

(** [%q] of a string without characters to escape. *)
Definition quote (s : string) : string :=
  String "034" (s +:+ String "034" "").

Section Locator.

(** [sort.Slice] on a slice of strings. *)
Variable sort_Slice :
  list string → (string → string → bool) → list string.

Definition SearchXLSURL (w : World) (searchURL : string) (pattern : regex)
  : string * option error :=
  if String.eqb searchURL DefaultXLSXURL then (searchURL, None)
  else
    match index_NewRequest w with
    | Some err => ("", Some (Wrap searchURL err))
    | None =>
        match index_Do w with
        | inl err => ("", Some (Wrap searchURL err))
        | inr resp =>
            if 399 <? StatusCode resp then
              ("", Some (errorString
                           (quote searchURL +:+ ": " +:+ Status resp
                            +:+ ": " +:+ Body resp)))
            else
              match tokenErr resp with
              | Some err => ("", Some err)
              | None =>
                  let candidates := candidatesOf (tokens resp) in
                  let rPattern := pattern in
                  let st :=
                    foldl step (mkShared [] [] None (λ _, []))
                      (interleave (schedule w)
                         (imap (task w rPattern) candidates)) in
                  match groupErr st with
                  | Some err => ("", Some err)
                  | None =>
                      let results := resultsCh st in
                      if Nat.eqb (length results) 0 then
                        ("", Some (Wrap2 ErrNotFound (errors_Join (errs st))))
                      else
                        let results := sort_Slice results lessBase in
                        (results !!! (length results - 1)%nat, None)
                  end
              end
        end
    end.

End Locator.

(** A sorting function for the examples: insertion sort. *)
Fixpoint insertBy (less : string → string → bool) (x : string)
    (l : list string) : list string :=
  match l with
  | [] => [x]
  | y :: l' => if less x y then x :: l else y :: insertBy less x l'
  end.

Definition insertionSort (l : list string) (less : string → string → bool)
  : list string :=
  foldr (insertBy less) [] l.

(** ** Predicates and auxiliary functions of the theorems *)

(** A printable ASCII byte. *)
Definition plain (c : ascii) : Prop := (32 < code c < 128)%N.

(** The first step of [normalize]: the four fields cleaned. *)
Definition cleaned (rec : Hitelezo) : Hitelezo :=
  mkHitelezo (cleanField (Bankszerv rec)) (BIC rec) (cleanField (Nev rec))
    (cleanField (Irszam rec)) (cleanField (Cim rec)).

(** The condition of the second step: the postal code is split off. *)
Definition splits (rec : Hitelezo) : bool :=
  String.eqb (Irszam rec) "" && (5 <? len (Cim rec))
  && (IndexByte (Cim rec) " " =? 4)
  && (IndexFunc (sliceTo 4 (Cim rec)) notDigit <? 0).

(** The loop that closes [Parse] seen from index [i]: what it makes of
    the elements from [i] on.  An incomplete head is replaced by the
    last element, which leaves the end of the list. *)
Definition moveLast (t : list Hitelezo) : list Hitelezo :=
  match last t with
  | Some l => l :: removelast t
  | None => []
  end.

Fixpoint sweep (fuel : nat) (l : list Hitelezo) : list Hitelezo :=
  match fuel with
  | O => l
  | S fuel' =>
      match l with
      | [] => []
      | h :: t =>
          if incomplete h then sweep fuel' (moveLast t)
          else h :: sweep fuel' t
      end
  end.

Definition complete (h : Hitelezo) : Prop := incomplete h = false.

(** What [checkAppend] guarantees of a record it appends. *)
Definition coded (h : Hitelezo) : Prop :=
  len (Bankszerv h) = 8 ∧ h ≠ zeroHitelezo.

(** The invariant of the data model: a valid record. *)
Definition valid (h : Hitelezo) : Prop :=
  len (Bankszerv h) = 8 ∧ Nev h ≠ "" ∧ (Irszam h ≠ "" ∨ Cim h ≠ "").

(** The way [Parse] takes, decided by the stream and its first bytes. *)
Inductive Route : Type :=
| Failed (err : error)
| ToPDF (sr : string)
| ToSheet (sr : string).

Definition route (env : Env) (r : option Reader) : Route :=
  let opened :=
    match r with
    | None => DownloadFile env DefaultXLSXURL
    | Some r => inr r
    end in
  match opened with
  | inl err => Failed err
  | inr r =>
      match MakeSectionReader (spill env) r (Z.shiftl 1 20) with
      | inl err => Failed err
      | inr sr =>
          match ReadAt sr 1024 with
          | (_, Some err) => Failed err
          | (b, None) => if HasPrefix b "%PDF-1" then ToPDF sr else ToSheet sr
          end
      end
  end.

(** The spreadsheet parsers as [Parse] chains them, before the loop
    that closes [Parse]. *)
Definition parseSheet (env : Env) (ctx : Context) (sr : string)
  : Outcome (list Hitelezo * option error) :=
  '(hit, err) ← ParseXLSX ctx (excelize_OpenReader env sr);
  if fallsBack err then ParseXLS ctx env sr else mret (hit, err).

(** [ParsePDF] takes its records from the text-extraction path. *)
Definition viaText (env : Env) (sr : string) : Prop :=
  ∃ hit err, parsePDFTabula (tabula env sr) = Ret (hit, Some err).

(** A string of [n] decimal digits. *)
Definition digits (n : nat) (d : string) : Prop :=
  String.length d = n
  ∧ Forall (λ c, isDigit c = true) (String.list_ascii_of_string d).

Definition digitBytes : list ascii :=
  ["0"; "1"; "2"; "3"; "4"; "5"; "6"; "7"; "8"; "9"]%char.

(** What the tasks do to the shared state, read off a trace. *)
Definition offers (trace : list Event) : list string :=
  omap (λ ev, match ev with Offer loc => Some loc | _ => None end) trace.


Definition returns (trace : list Event) : list error :=
  omap (λ ev, match ev with Return err => Some err | _ => None end) trace.

(** The locations of the candidates that qualify: the redirect answers
    with status 302 whose file name matches the pattern, one per
    candidate, in the order of the candidates. *)
Definition qualifying (w : World) (pattern : regex) (candidates : list string)
  : list string :=
  offers (concat (imap (task w pattern) candidates)).


(** The index page was fetched and tokenized to its end, with the
    answer [resp]. *)
Definition crawls (w : World) (searchURL : string) (resp : IndexResponse)
  : Prop :=
  searchURL ≠ DefaultXLSXURL
  ∧ index_NewRequest w = None
  ∧ index_Do w = inr resp
  ∧ StatusCode resp ≤ 399
  ∧ tokenErr resp = None.

(** The contract of [sort.Slice]: for a [less] that is a strict weak
    ordering, the slice is rearranged so that [sort.SliceIsSorted]
    holds. *)
Definition StrictWeak (less : string → string → bool) : Prop :=
  (∀ x, less x x = false)
  ∧ (∀ x y z, less x y = true → less y z = true → less x z = true)
  ∧ (∀ x y z, less x y = false → less y z = false → less x z = false).

Definition SliceIsSorted (less : string → string → bool) (l : list string)
  : Prop :=
  ∀ i x y, l !! i = Some x → l !! S i = Some y → less y x = false.

Definition SortsSlice
    (sort : list string → (string → string → bool) → list string) : Prop :=
  ∀ l less, StrictWeak less →
    sort l less ≡ₚ l ∧ SliceIsSorted less (sort l less).

(** The record [parsePDFTabula] makes of a CSV record, and the record
    [ParseXLSX] makes of a row in each of its two layouts. *)
Definition tabulaRecord (row : list string) : Hitelezo :=
  mkHitelezo (row !!! 0%nat) "" (row !!! 1%nat) (row !!! 2%nat) (row !!! 3%nat).

Definition layout (noIrszam : bool) : list Field :=
  if noIrszam then [fBankszerv; fBIC; fNev; fCim]
  else [fBankszerv; fNev; fIrszam; fCim].

Definition rowRecord (noIrszam : bool) (row : list string) : Hitelezo :=
  if noIrszam
  then mkHitelezo (row !!! 0%nat) (row !!! 1%nat) (row !!! 2%nat) ""
         (row !!! 3%nat)
  else mkHitelezo (row !!! 0%nat) "" (row !!! 1%nat) (row !!! 2%nat)
         (row !!! 3%nat).




(** The pattern as [MatchString] runs it, and the two states it can be
    in while it reads a name that has no hyphen and starts with neither
    [E] nor [A]: [searching] when a line feed has been read, [waiting]
    before. *)
Definition searching : regex :=
  Seq (Star AnyByte) (Seq DefaultPattern (Star AnyByte)).

Definition waiting : regex := Eval vm_compute in deriv "r" true searching.

(** The records of a page whose four columns are given. *)
Definition pageRecords (codes names zips addrs : list string) : list Hitelezo :=
  zip_with (λ cn za, mkHitelezo cn.1 "" cn.2 za.1 za.2)
    (zip codes names) (zip zips addrs).

(** A line [parseTXT] takes for the first line of the table. *)
Definition startsWithDigit (line : string) : bool :=
  match line with
  | String c _ => isDigit c
  | EmptyString => false
  end.

(** The table-extraction run has failed, as [ParsePDF] sees it. *)
Definition tabulaFailed (run : TabulaRun) : Prop :=
  tabula_setup run ≠ None ∨ tabula_stop run ≠ None ∨ tabula_wait run ≠ None.

(** The record [ParseXLS] makes of a row, and the rows it reads: those
    with a number from [skip] on and below [MaxRow]. *)
Definition xlsRecord (row : XlsRow) : Hitelezo :=
  mkHitelezo (Col row (FirstCol row + 0)%nat) ""
    (Col row (FirstCol row + 1)%nat) (Col row (FirstCol row + 2)%nat)
    (Col row (FirstCol row + 3)%nat).

Definition xlsRows (sheet : XlsSheet) : list XlsRow :=
  omap (λ n, if (n <? skip)%nat then None else rows sheet n)
    (seq 0 (MaxRow sheet)).

(** The context is not seen done at the polls [k] to [k + n - 1]. *)
Definition alive (ctx : Context) (k n : nat) : Prop :=
  ∀ i, (i < n)%nat → ctx (k + i)%nat = None.

(** The language of a regular expression: [Matches r bol eol s] when
    [r] matches the piece [s] of a text, [s] starting at the beginning
    of the text when [bol] holds and ending at its end when [eol]
    holds. *)
Definition isEmpty (s : string) : bool :=
  match s with
  | EmptyString => true
  | String _ _ => false
  end.

Inductive Matches : regex → bool → bool → string → Prop :=
| M_Eps bol eol : Matches Eps bol eol ""
| M_Bol eol : Matches Bol true eol ""
| M_Eol bol : Matches Eol bol true ""
| M_Chr c bol eol : Matches (Chr c) bol eol (String c "")
| M_Range lo hi c bol eol :
    (code lo ≤ code c ≤ code hi)%N →
    Matches (Range lo hi) bol eol (String c "")
| M_Dot c bol eol : c ≠ "010"%char → Matches Dot bol eol (String c "")
| M_AnyByte c bol eol : Matches AnyByte bol eol (String c "")
| M_Seq r1 r2 s1 s2 bol eol :
    Matches r1 bol (eol && isEmpty s2) s1 →
    Matches r2 (bol && isEmpty s1) eol s2 →
    Matches (Seq r1 r2) bol eol (s1 +:+ s2)
| M_AltL r1 r2 s bol eol : Matches r1 bol eol s → Matches (Alt r1 r2) bol eol s
| M_AltR r1 r2 s bol eol : Matches r2 bol eol s → Matches (Alt r1 r2) bol eol s
| M_Star0 r bol eol : Matches (Star r) bol eol ""
| M_StarS r c s1 s2 bol eol :
    Matches r bol (eol && isEmpty s2) (String c s1) →
    Matches (Star r) false eol s2 →
    Matches (Star r) bol eol (String c s1 +:+ s2).

(** [matchWhole] on a piece of the text that need not reach its end. *)
Fixpoint matchTo (r : regex) (s : string) (bol eol : bool) : bool :=
  match s with
  | EmptyString => nullable bol eol r
  | String c s' => matchTo (deriv c bol r) s' false eol
  end.

(** The three groups of names of [DefaultPattern]. *)
Definition xlsNames : regex :=
  Seq (Star Dot) (Seq (Lit "-xls-") (Seq (Star Dot) Eol)).

Definition ehtNames : regex :=
  Seq (Lit "EHT_")
    (Seq
       (Alt (Rep 8 digit)
          (Alt
             (Seq (Rep 4 digit)
                (Seq sep (Seq (Rep 2 digit) (Seq sep (Rep 2 digit)))))
             (Seq (Chr "2") (Rep 5 digit))))
       (Seq (Chr ".") extension)).

Definition avtNames : regex :=
  Seq (Lit "AVT_")
    (Seq (Rep 2 digit)
       (Seq (Chr "_")
          (Seq (Rep 2 digit)
             (Seq (Chr "_")
                (Seq (Chr "2")
                   (Seq (Rep 3 digit) (Seq (Chr ".") extension))))))).

(** A string without line feed. *)
Definition oneLine (s : string) : Prop :=
  "010"%char ∉ String.list_ascii_of_string s.

Definition isSep (s : string) : Prop := s = "_" ∨ s = "-".

Definition isExtension (s : string) : Prop :=
  s = "pdf" ∨ s = "xls" ∨ s = "xlsx".

(** The date of a name that starts with [EHT_]: eight digits, or year,
    month and day with separators, or six digits of which the first is
    2. *)
Definition ehtDate (d : string) : Prop :=
  digits 8 d
  ∨ (∃ y s1 m s2 dd,
       d = y +:+ s1 +:+ m +:+ s2 +:+ dd
       ∧ digits 4 y ∧ isSep s1 ∧ digits 2 m ∧ isSep s2 ∧ digits 2 dd)
  ∨ (∃ n, d = "2" +:+ n ∧ digits 5 n).

(** ** Concrete inputs *)

Fixpoint repeatByte (n : nat) (c : ascii) : string :=
  match n with
  | O => EmptyString
  | S m => String c (repeatByte m c)
  end.

(** Join lines, each ended by a line feed. *)
Fixpoint unlines (ls : list string) : string :=
  match ls with
  | [] => EmptyString
  | l :: ls' => l +:+ String "010" (unlines ls')
  end.

Definition formFeed : string := String "012" EmptyString.

(** A stream of more than 1024 bytes that starts like a PDF, and one
    that does not. *)
Definition pdfStream : Reader :=
  {| content := "%PDF-1.4" +:+ repeatByte 1024 " "; failure := None |}.

Definition sheetStream : Reader :=
  {| content := "PK" +:+ repeatByte 1024 " "; failure := None |}.

(** The table-extraction program cannot be started. *)
Definition tabulaMissing : TabulaRun :=
  {| tabula_setup := Some (Wrap "start [java -jar tabula.jar]"
                             (errorString "executable file not found"));
     tabula_rows := [];
     tabula_stop := None;
     tabula_wait := None |}.

(** The table-extraction program starts and prints the CSV records
    [records], one per line, and ends well.  [csv.NewReader] leaves
    [FieldsPerRecord] at 0: the reader returns the records as long as
    they have as many fields as the first, and stops at the first that
    has not with [csv.ErrFieldCount], in a [csv.ParseError] with the
    number of the line. *)
Fixpoint sameFields (n : nat) (records : list (list string))
  : list (list string) :=
  match records with
  | [] => []
  | record :: records' =>
      if Nat.eqb (length record) n then record :: sameFields n records'
      else []
  end.

Definition tabulaPrints (records : list (list string)) : TabulaRun :=
  let read := sameFields (length (hd [] records)) records in
  {| tabula_setup := None;
     tabula_rows := read;
     tabula_stop :=
       if (length read <? length records)%nat
       then Some (Wrap ("record on line "
                        +:+ NilEmpty.string_of_uint
                              (Nat.to_uint (S (length read))))
                    (errorString "wrong number of fields"))
       else None;
     tabula_wait := None |}.

Definition pdftotextPrints (out : string) : PdfToTextRun :=
  {| pdftotext_pipe := None;
     pdftotext_start := None;
     pdftotext_stdout := out;
     pdftotext_wait := None |}.

(** An environment in which a PDF is read through [pdftotext], which
    prints [out]. *)
Definition envText (out : string) : Env :=
  {| DownloadFile := λ _, inl (errorString "no network");
     tabula := λ _, tabulaMissing;
     pdftotext := λ _, pdftotextPrints out;
     excelize_OpenReader := λ _, inl (errorString "zip: not a valid zip file");
     xls_OpenReader := λ _, inl (errorString "not an excel file");
     Seek := None;
     spill := λ _, inl (errorString "no space left on device") |}.

(** An environment in which a PDF is read through the table-extraction
    program, which prints the CSV records [rows]. *)
Definition envTabula (rows : list (list string)) : Env :=
  {| DownloadFile := λ _, inl (errorString "no network");
     tabula := λ _, tabulaPrints rows;
     pdftotext := λ _, pdftotextPrints "";
     excelize_OpenReader := λ _, inl (errorString "zip: not a valid zip file");
     xls_OpenReader := λ _, inl (errorString "not an excel file");
     Seek := None;
     spill := λ _, inl (errorString "no space left on device") |}.

(** An environment in which the stream is a modern spreadsheet with
    the rows [rows] on its first sheet. *)
Definition envSheet (rows : list (list string)) : Env :=
  {| DownloadFile := λ _, inl (errorString "no network");
     tabula := λ _, tabulaMissing;
     pdftotext := λ _, pdftotextPrints "";
     excelize_OpenReader := λ _, inr {| xlsx_Rows := None; xlsx_rows := rows |};
     xls_OpenReader := λ _, inl (errorString "not an excel file");
     Seek := None;
     spill := λ _, inl (errorString "no space left on device") |}.

Definition header : list string := ["Bankszerv"; "Nev"; "Irszam"; "Cim"].

Definition fourRows : list (list string) :=
  [header;
   ["10000001"; "Elso Bank"; "1011"; "Budapest, Fo utca 1."];
   ["10000002"; ""; "1022"; "Budapest, Fo utca 2."];
   ["10000003"; "Harmadik Bank"; "1033"; "Budapest, Fo utca 3."];
   ["10000004"; "Negyedik Bank"; "1044"; "Budapest, Fo utca 4."]].

Definition elso : Hitelezo :=
  mkHitelezo "10000001" "" "Elso Bank" "1011" "Budapest, Fo utca 1.".
Definition nevtelen : Hitelezo :=
  mkHitelezo "10000002" "" "" "1022" "Budapest, Fo utca 2.".
Definition harmadik : Hitelezo :=
  mkHitelezo "10000003" "" "Harmadik Bank" "1033" "Budapest, Fo utca 3.".
Definition negyedik : Hitelezo :=
  mkHitelezo "10000004" "" "Negyedik Bank" "1044" "Budapest, Fo utca 4.".

(** Concrete index pages and networks. *)
Definition DefaultURL : string := "https://www.giro.hu/dokumentumok".

Definition anchor (href : string) : Token :=
  StartTagToken "a" [("class", "download"); ("href", href)].

Definition pageOf (toks : list Token) : IndexResponse :=
  {| StatusCode := 200; Status := "200 OK"; Body := "";
     tokens := toks; tokenErr := None |}.

Definition found (loc : string) : list error * option Response :=
  ([], Some {| resp_StatusCode := 302; Location := loc |}).

Definition worldOf (toks : list Token)
    (answers : nat → list error * option Response) : World :=
  {| index_NewRequest := None;
     index_Do := inr (pageOf toks);
     url_Parse := λ v, inr {| Scheme := "https"; URL_String := v |};
     http_NewRequest := λ _, None;
     noRedir_Do := answers;
     schedule := [] |}.

(** Two links, both redirecting to names that match. *)
Definition twoLinks : World :=
  worldOf [OtherToken;
           anchor "https://www.giro.hu/documents/1";
           anchor "https://www.giro.hu/documents/2"]
    (λ i, if Nat.eqb i 0 then found "/letoltes/EHT_20210501.xlsx"
          else found "/letoltes/EHT_20210401.pdf").




(** 1025 links that all redirect to names that match, each to a name
    that sorts after the names before it. *)
Definition numbered (i : nat) : string :=
  "/EHT_" +:+ NilEmpty.string_of_uint (N.to_uint (20000000 + N.of_nat i))
  +:+ ".pdf".

Definition crowded : World :=
  worldOf (replicate 1025 (anchor "https://www.giro.hu/documents/1"))
    (λ i, found (numbered i)).

(** A sheet in the layout with a BIC column. *)
Definition bicRows : list (list string) :=
  [["Branch office code"; "BIC code"; "Name of the branch office";
    "Address of the branch office"];
   ["10000001"; "ELSOHUHB"; "Elso Bank"; "1011 Budapest, Fo utca 1."]].

(** A row of a legacy sheet with its cells from column [off] on. *)
Definition xlsRowOf (off : nat) (cells : list string) : XlsRow :=
  {| FirstCol := off;
     Col := λ j, if (j <? off)%nat then "" else cells !!! (j - off)%nat |}.

(** A legacy sheet: a heading and three rows that start in the second
    column; the last row has the number [MaxRow]. *)
Definition legacySheet : XlsSheet :=
  {| MaxRow := 3;
     rows := λ n,
       match n with
       | 0%nat => Some (xlsRowOf 0 header)
       | 1%nat => Some (xlsRowOf 1 ["10000001"; "Elso Bank"; "1011";
                                    "Budapest, Fo utca 1."])
       | 2%nat => Some (xlsRowOf 1 ["10000003"; "Harmadik Bank"; "1033";
                                    "Budapest, Fo utca 3."])
       | 3%nat => Some (xlsRowOf 1 ["10000004"; "Negyedik Bank"; "1044";
                                    "Budapest, Fo utca 4."])
       | _ => None
       end |}.

(** The same sheet without its row 2. *)
Definition gappedSheet : XlsSheet :=
  {| MaxRow := 3;
     rows := λ n, if Nat.eqb n 2 then None else rows legacySheet n |}.

(** An environment in which the stream is a legacy spreadsheet, which
    the modern decoder refuses. *)
Definition envLegacy : Env :=
  {| DownloadFile := λ _, inl (errorString "no network");
     tabula := λ _, tabulaMissing;
     pdftotext := λ _, pdftotextPrints "";
     excelize_OpenReader := λ _, inl (errorString "unsupported workbook file format");
     xls_OpenReader := λ _, inr {| GetSheet0 := Some legacySheet |};
     Seek := None;
     spill := λ _, inl (errorString "no space left on device") |}.

(** The same with the sheet that lacks a row. *)
Definition envGapped : Env :=
  {| DownloadFile := λ _, inl (errorString "no network");
     tabula := λ _, tabulaMissing;
     pdftotext := λ _, pdftotextPrints "";
     excelize_OpenReader := λ _, inl (errorString "unsupported workbook file format");
     xls_OpenReader := λ _, inr {| GetSheet0 := Some gappedSheet |};
     Seek := None;
     spill := λ _, inl (errorString "no space left on device") |}.

(** An environment in which no decoder opens the stream; the modern
    decoder's error is [err]. *)
Definition envGarbage (err : error) : Env :=
  {| DownloadFile := λ _, inl (errorString "no network");
     tabula := λ _, tabulaMissing;
     pdftotext := λ _, pdftotextPrints "";
     excelize_OpenReader := λ _, inl err;
     xls_OpenReader := λ _, inl (errorString "not an excel file");
     Seek := None;
     spill := λ _, inl (errorString "no space left on device") |}.

(** The same network with another order of the steps of the tasks. *)
Definition reschedule (w : World) (sched : list nat) : World :=
  {| index_NewRequest := index_NewRequest w;
     index_Do := index_Do w;
     url_Parse := url_Parse w;
     http_NewRequest := http_NewRequest w;
     noRedir_Do := noRedir_Do w;
     schedule := sched |}.

(** Two links; the request for the second cannot be built. *)
Definition brokenLink : World :=
  {| index_NewRequest := None;
     index_Do := inr (pageOf [anchor "https://www.giro.hu/documents/1";
                              anchor "https://www.giro.hu/documents/2"]);
     url_Parse := λ v, inr {| Scheme := "https"; URL_String := v |};
     http_NewRequest :=
       λ u, if String.eqb u "https://www.giro.hu/documents/2"
            then Some (errorString "net/http: invalid request")
            else None;
     noRedir_Do := λ _, found "/letoltes/EHT_20210501.xlsx";
     schedule := [] |}.

(** * Theorems *)

(** ** Examples *)

Example checkAppend_example :
  checkAppend [] (mkHitelezo "10002003" "" " Magyar " ""
                    "1139 Budapest, Váci út 71.")
  = [mkHitelezo "10002003" "" "Magyar" "1139" "Budapest, Váci út 71."].
Proof. reflexivity. Qed.

(** [parsePDFTabula] hands its rows on as they are: a heading row of
    the table becomes a record that [Parse] returns. *)
Example Parse_tabula_heading :
  Parse (envTabula [header]) Background (Some pdfStream)
  = Ret ([mkHitelezo "Bankszerv" "" "Nev" "Irszam" "Cim"], None).
Proof. vm_compute. reflexivity. Qed.

Example parseTXT_example :
  parseTXT ("10002003" +:+ String "010" ("Magyar" +:+ String "010"
            ("1139" +:+ String "010" ("Budapest" +:+ String "010"
            (String "012" "")))))
  = ([mkHitelezo "10002003" "" "Magyar" "1139" "Budapest"], None).
Proof. vm_compute. reflexivity. Qed.

Example DefaultPattern_examples :
  map (MatchString DefaultPattern)
    ["EHT_20210401.xlsx"; "EHT_20210401.pdf"; "AVT_01_02_2021.xls";
     "readme.txt"; "AVT_01_02_1999.xls"; "a-xls-b"; "EHT_2021-04-01.xls";
     "EHT_210401.pdf"; "xEHT_20210401.pdf"; "EHT_20210401.pdfx"]
  = [true; true; true; false; false; true; true; true; false; false].
Proof. vm_compute. reflexivity. Qed.

(** ** [TrimSpace] and [normalize] *)

(** *** The scan for white space *)

Section ScanFacts.
Variable s1 : ascii → bool.
Variable s2 : ascii → ascii → bool.
Variable s3 : ascii → ascii → ascii → bool.

Local Abbreviation width := (spaceWidth s1 s2 s3).
Local Abbreviation trim := (trimRunes s1 s2 s3).

Lemma trimRunes_unfold l :
  trim l = match width l with
           | O => l
           | n => trim (drop n l)
           end.
Proof.
  destruct l as [|c1 [|c2 [|c3 r]]]; simpl; auto;
    repeat (case_match; simpl; auto).
Qed.

Lemma spaceWidth_le l : (spaceWidth s1 s2 s3 l ≤ length l)%nat.
Proof.
  destruct l as [|c1 [|c2 [|c3 r]]]; simpl; repeat case_match; simpl; lia.
Qed.

Lemma trimRunes_fixed l : width l = 0%nat → trim l = l.
Proof. intros H. by rewrite trimRunes_unfold, H. Qed.

Lemma trimRunes_width l : width (trim l) = 0%nat.
Proof.
  induction l as [l IH] using (induction_ltof1 _ (@length ascii)).
  unfold ltof in IH. rewrite trimRunes_unfold.
  destruct (width l) as [|n] eqn:Hw; [done|].
  apply IH. rewrite length_drop.
  pose proof (spaceWidth_le l). destruct l; simpl in *; lia.
Qed.

Lemma trimRunes_idem l : trim (trim l) = trim l.
Proof. apply trimRunes_fixed, trimRunes_width. Qed.

Lemma trimRunes_suffix l : trim l `suffix_of` l.
Proof.
  induction l as [l IH] using (induction_ltof1 _ (@length ascii)).
  unfold ltof in IH. rewrite trimRunes_unfold.
  destruct (width l) as [|n] eqn:Hw; [done|].
  etrans; [apply IH|apply suffix_drop].
  rewrite length_drop.
  pose proof (spaceWidth_le l). destruct l; simpl in *; lia.
Qed.

Lemma spaceWidth_app l q : width (l ++ q) = 0%nat → width l = 0%nat.
Proof.
  destruct l as [|c1 [|c2 [|c3 r]]]; simpl; auto;
    repeat (case_match; simpl; auto; try discriminate).
Qed.

Lemma trimRunes_fixed_inv l : trim l = l → width l = 0%nat.
Proof. intros <-. apply trimRunes_width. Qed.
End ScanFacts.

(** *** [TrimSpace] *)

Lemma trimLeft_trimRight_fixed l :
  trimLeft l = l → trimLeft (trimRight l) = trimRight l.
Proof.
  intros Hl. apply trimRunes_fixed.
  apply trimRunes_fixed_inv in Hl.
  unfold trimRight.
  destruct (trimRunes_suffix asciiSpace (λ a b, space2 b a)
              (λ a b c, space3 c b a) (rev l)) as [k Hk].
  apply (spaceWidth_app _ _ _ _ (rev k)).
  rewrite <- rev_app_distr, <- Hk, rev_involutive. exact Hl.
Qed.

Lemma trimRight_idem l : trimRight (trimRight l) = trimRight l.
Proof. unfold trimRight. by rewrite rev_involutive, trimRunes_idem. Qed.

Lemma TrimSpace_idem s : TrimSpace (TrimSpace s) = TrimSpace s.
Proof.
  unfold TrimSpace. rewrite String.list_ascii_of_string_of_list_ascii.
  rewrite trimLeft_trimRight_fixed by apply trimRunes_idem.
  by rewrite trimRight_idem.
Qed.

Lemma trimRight_prefix l : trimRight l `prefix_of` l.
Proof.
  unfold trimRight.
  destruct (trimRunes_suffix asciiSpace (λ a b, space2 b a)
              (λ a b c, space3 c b a) (rev l)) as [k Hk].
  exists (rev k). by rewrite <- rev_app_distr, <- Hk, rev_involutive.
Qed.

(** Bytes kept by [TrimSpace] are bytes of its argument. *)
Lemma TrimSpace_bytes s c :
  c ∈ String.list_ascii_of_string (TrimSpace s) →
  c ∈ String.list_ascii_of_string s.
Proof.
  unfold TrimSpace. rewrite String.list_ascii_of_string_of_list_ascii.
  intros Hc.
  destruct (trimRight_prefix (trimLeft (String.list_ascii_of_string s)))
    as [k Hk].
  destruct (trimRunes_suffix asciiSpace space2 space3
              (String.list_ascii_of_string s)) as [k' Hk'].
  rewrite Hk'. fold (trimLeft (String.list_ascii_of_string s)).
  rewrite Hk. apply elem_of_app. right. apply elem_of_app. by left.
Qed.

(** *** [ReplaceAll] with nothing for the null byte *)

Lemma ReplaceAll_nul_bytes s :
  "000"%char ∉ String.list_ascii_of_string (ReplaceAll s "000" "").
Proof.
  induction s as [|c s IH]; simpl; [by intros ?%elem_of_nil|].
  destruct (Ascii.eqb_spec c "000") as [->|Hc]; simpl; [done|].
  apply not_elem_of_cons. split; [congruence|done].
Qed.

Lemma ReplaceAll_nul_fixed s :
  "000"%char ∉ String.list_ascii_of_string s → ReplaceAll s "000" "" = s.
Proof.
  induction s as [|c s IH]; simpl; [done|].
  intros [Hc Hs]%not_elem_of_cons.
  destruct (Ascii.eqb_spec c "000") as [->|_]; [done|].
  f_equal. by apply IH.
Qed.

Lemma cleanField_idem p : cleanField (cleanField p) = cleanField p.
Proof.
  unfold cleanField.
  rewrite (ReplaceAll_nul_fixed (TrimSpace _)); [apply TrimSpace_idem|].
  intros H%TrimSpace_bytes. by apply ReplaceAll_nul_bytes in H.
Qed.

(** *** Decimal digits are not touched by [cleanField] *)

Lemma asciiSpace_code c : asciiSpace c = true → (code c ≤ 32)%N.
Proof.
  unfold asciiSpace.
  rewrite orb_true_iff, andb_true_iff, !N.leb_le, N.eqb_eq. lia.
Qed.

Lemma space2_code a b :
  space2 a b = true → (code a = 194 ∧ 133 ≤ code b)%N.
Proof.
  unfold space2.
  rewrite andb_true_iff, orb_true_iff, !N.eqb_eq. lia.
Qed.

Lemma space3_code a b c :
  space3 a b c = true → (225 ≤ code a ∧ 128 ≤ code c)%N.
Proof.
  unfold space3.
  rewrite !orb_true_iff, !andb_true_iff, !orb_true_iff, !andb_true_iff,
    !N.eqb_eq, !N.leb_le. lia.
Qed.


Lemma spaceWidth_plain_left c l :
  plain c → spaceWidth asciiSpace space2 space3 (c :: l) = 0%nat.
Proof.
  unfold plain. intros Hc. simpl.
  destruct (asciiSpace c) eqn:H1; [apply asciiSpace_code in H1; lia|].
  destruct l as [|c2 l]; [done|].
  destruct (space2 c c2) eqn:H2; [apply space2_code in H2; lia|].
  destruct l as [|c3 l]; [done|].
  destruct (space3 c c2 c3) eqn:H3; [apply space3_code in H3; lia|done].
Qed.

Lemma spaceWidth_plain_right c l :
  plain c →
  spaceWidth asciiSpace (λ a b, space2 b a) (λ a b c, space3 c b a) (c :: l)
  = 0%nat.
Proof.
  unfold plain. intros Hc. simpl.
  destruct (asciiSpace c) eqn:H1; [apply asciiSpace_code in H1; lia|].
  destruct l as [|c2 l]; [done|].
  destruct (space2 c2 c) eqn:H2; [apply space2_code in H2; lia|].
  destruct l as [|c3 l]; [done|].
  destruct (space3 c3 c2 c) eqn:H3; [apply space3_code in H3; lia|done].
Qed.

(** A string whose first and last bytes are printable ASCII is not
    changed by [TrimSpace]. *)
Lemma TrimSpace_plain s :
  Forall plain (String.list_ascii_of_string s) → TrimSpace s = s.
Proof.
  intros Hs. unfold TrimSpace.
  set (l := String.list_ascii_of_string s) in *.
  assert (trimLeft l = l) as ->.
  { apply trimRunes_fixed. destruct Hs; [done|].
    by apply spaceWidth_plain_left. }
  assert (trimRight l = l) as ->.
  { unfold trimRight. rewrite trimRunes_fixed; [apply rev_involutive|].
    apply Forall_rev in Hs. destruct Hs; [done|].
    by apply spaceWidth_plain_right. }
  apply String.string_of_list_ascii_of_string.
Qed.

Lemma IndexFunc_range s f : -1 ≤ IndexFunc s f.
Proof.
  induction s as [|c s IH]; simpl; [lia|].
  destruct (f c); [lia|]. destruct (Z.ltb_spec (IndexFunc s f) 0); lia.
Qed.

Lemma IndexFunc_none s f :
  IndexFunc s f < 0 → Forall (λ c, f c = false) (String.list_ascii_of_string s).
Proof.
  induction s as [|c s IH]; simpl; [constructor|].
  destruct (f c) eqn:Hc; [lia|].
  destruct (Z.ltb_spec (IndexFunc s f) 0) as [Hlt|Hge]; [|lia].
  intros _. constructor; auto.
Qed.

Lemma notDigit_plain c : notDigit c = false → plain c.
Proof.
  unfold notDigit, plain.
  rewrite negb_false_iff, andb_true_iff, !N.leb_le. lia.
Qed.

Lemma cleanField_digits s : IndexFunc s notDigit < 0 → cleanField s = s.
Proof.
  intros Hs%IndexFunc_none. unfold cleanField.
  assert (Forall plain (String.list_ascii_of_string s)) as Hp.
  { eapply Forall_impl; [exact Hs|]. apply notDigit_plain. }
  rewrite ReplaceAll_nul_fixed; [by apply TrimSpace_plain|].
  intros H0. rewrite Forall_forall in Hp. apply Hp in H0.
  unfold plain in H0. vm_compute in H0. by destruct H0.
Qed.

(** *** Slices *)

Lemma sliceFrom_bytes n s c :
  c ∈ String.list_ascii_of_string (sliceFrom n s) →
  c ∈ String.list_ascii_of_string s.
Proof.
  revert s. induction n as [|n IH]; intros [|d s]; simpl; auto.
  intros H. apply elem_of_cons. right. by apply IH.
Qed.

Lemma sliceTo_nonempty n s :
  (0 < n)%nat → 0 < len s → sliceTo n s ≠ "".
Proof. destruct n, s; unfold len; simpl; (lia || discriminate). Qed.

(** *** [normalize] *)



Lemma normalize_eq rec :
  normalize rec =
  if splits (cleaned rec)
  then mkHitelezo (cleanField (Bankszerv rec)) (BIC rec) (cleanField (Nev rec))
         (sliceTo 4 (cleanField (Cim rec))) (sliceFrom 5 (cleanField (Cim rec)))
  else cleaned rec.
Proof.
  unfold normalize, splits, cleaned; simpl.
  repeat (case_match; simpl in *; try done).
Qed.

Lemma cleaned_idem rec : cleaned (cleaned rec) = cleaned rec.
Proof. unfold cleaned; simpl. by rewrite !cleanField_idem. Qed.

Lemma cleanField_nul_free p :
  "000"%char ∉ String.list_ascii_of_string (cleanField p).
Proof.
  unfold cleanField. intros H%TrimSpace_bytes.
  by apply ReplaceAll_nul_bytes in H.
Qed.

(** A second application of [normalize] only cleans the fields again. *)
Lemma normalize_normalize rec :
  normalize (normalize rec) = cleaned (normalize rec)
  ∧ splits (cleaned (normalize rec)) = false.
Proof.
  assert (∀ r, splits (cleaned r) = false → normalize r = cleaned r) as Hn.
  { intros r Hr. by rewrite normalize_eq, Hr. }
  rewrite (normalize_eq rec).
  destruct (splits (cleaned rec)) eqn:Hs.
  - match goal with |- ?P ∧ ?Q => assert Q as HQ end; [|by split; [apply Hn|]].
    unfold splits, cleaned in *; cbn [Irszam Cim] in *.
    rewrite !andb_true_iff in Hs. destruct Hs as [[[_ Hlen] _] Hd].
    apply Z.ltb_lt in Hlen, Hd.
    rewrite (cleanField_digits _ Hd).
    destruct (String.eqb_spec (sliceTo 4 (cleanField (Cim rec))) "") as [He|_];
      [|done].
    exfalso. revert He. apply sliceTo_nonempty; lia.
  - split; [apply Hn|]; by rewrite cleaned_idem.
Qed.

Lemma normalize_stable rec :
  normalize (normalize (normalize rec)) = normalize (normalize rec).
Proof.
  destruct (normalize_normalize rec) as [-> Hs].
  by rewrite normalize_eq, cleaned_idem, Hs.
Qed.

Lemma Cim_normalize_nul_free rec :
  "000"%char ∉ String.list_ascii_of_string (Cim (normalize rec)).
Proof.
  rewrite normalize_eq. destruct (splits (cleaned rec)); cbn [Cim cleaned].
  - intros H%sliceFrom_bytes. by apply cleanField_nul_free in H.
  - apply cleanField_nul_free.
Qed.

Lemma normalize_idempotent_trimmed rec :
  normalize (normalize rec) = normalize rec
  ↔ TrimSpace (Cim (normalize rec)) = Cim (normalize rec).
Proof.
  destruct (normalize_normalize rec) as [-> _].
  assert (cleanField (Cim (normalize rec)) = TrimSpace (Cim (normalize rec)))
    as HC.
  { unfold cleanField.
    by rewrite ReplaceAll_nul_fixed by apply Cim_normalize_nul_free. }
  split.
  - intros H. rewrite <- HC. by rewrite <- H at 2.
  - intros H. unfold cleaned. rewrite HC, H.
    rewrite normalize_eq.
    destruct (splits (cleaned rec)) eqn:Hs;
      cbn [Bankszerv BIC Nev Irszam Cim cleaned].
    + f_equal; try apply cleanField_idem.
      apply cleanField_digits.
      unfold splits in Hs. rewrite !andb_true_iff in Hs.
      destruct Hs as [_ Hd]. by apply Z.ltb_lt in Hd.
    + by rewrite !cleanField_idem.
Qed.

(** C7, as amended.  Normalizing a normalized record again changes
    nothing exactly when the address of the normalized record has no
    white space around it.  That is so whenever the postal code is not
    split off the address; it can fail only when the split leaves
    white space in front of the rest of the address.  A third
    normalization never changes anything. *)
Theorem normalize_idempotent_iff rec :
  (normalize (normalize rec) = normalize rec
   ↔ TrimSpace (Cim (normalize rec)) = Cim (normalize rec))
  ∧ (splits (cleaned rec) = false →
     normalize (normalize rec) = normalize rec)
  ∧ normalize (normalize (normalize rec)) = normalize (normalize rec).
Proof.
  split_and!.
  - apply normalize_idempotent_trimmed.
  - intros Hs. apply normalize_idempotent_trimmed.
    rewrite normalize_eq, Hs. cbn [Cim cleaned]. apply TrimSpace_idem.
  - apply normalize_stable.
Qed.

Lemma normalize_idempotent_iff_witness :
  let rec := mkHitelezo " 10002003" "" "Magyar Államkincstár " ""
               "1139 Budapest, Váci út 71." in
  TrimSpace (Cim (normalize rec)) = Cim (normalize rec)
  ∧ normalize (normalize rec) = normalize rec.
Proof.
  intros rec.
  assert (TrimSpace (Cim (normalize rec)) = Cim (normalize rec)) as H
    by (vm_compute; reflexivity).
  split; [exact H|].
  exact (proj2 (proj1 (normalize_idempotent_iff rec)) H).
Defined.

(** C7 fails as stated: two spaces after the postal code leave a space
    in front of the address, which the second normalization trims. *)
Lemma normalize_not_idempotent :
  let rec := mkHitelezo "10002003" "" "Magyar Államkincstár" ""
               "1139  Budapest, Váci út 71." in
  normalize rec
  = mkHitelezo "10002003" "" "Magyar Államkincstár" "1139"
      " Budapest, Váci út 71."
  ∧ normalize (normalize rec)
    = mkHitelezo "10002003" "" "Magyar Államkincstár" "1139"
        "Budapest, Váci út 71."
  ∧ normalize (normalize rec) ≠ normalize rec.
Proof.
  intros rec.
  assert (normalize rec
          = mkHitelezo "10002003" "" "Magyar Államkincstár" "1139"
              " Budapest, Váci út 71.") as H1 by (vm_compute; reflexivity).
  assert (normalize (normalize rec)
          = mkHitelezo "10002003" "" "Magyar Államkincstár" "1139"
              "Budapest, Váci út 71.") as H2 by (vm_compute; reflexivity).
  split_and!; [done..|]. rewrite H2, H1. discriminate.
Qed.

(** *** The loop that closes [Parse] *)

Lemma moveLast_snoc t l : moveLast (t ++ [l]) = l :: t.
Proof. unfold moveLast. by rewrite last_snoc, removelast_last. Qed.

Lemma moveLast_length t : length (moveLast t) = length t.
Proof.
  destruct t as [|l t _] using rev_ind; [done|].
  rewrite moveLast_snoc, length_app. simpl. lia.
Qed.

Lemma moveLast_perm t : moveLast t ≡ₚ t.
Proof.
  destruct t as [|l t _] using rev_ind; [done|].
  rewrite moveLast_snoc. by rewrite Permutation_app_comm.
Qed.

(** One overwrite-and-shrink step of the loop, on a slice split at the
    index. *)
Lemma swap_remove pre h t :
  let hit := pre ++ h :: t in
  take (length (<[length pre := hit !!! (length hit - 1)%nat]> hit) - 1)
       (<[length pre := hit !!! (length hit - 1)%nat]> hit)
  = pre ++ moveLast t.
Proof.
  intros hit. rewrite length_insert. subst hit.
  destruct t as [|l t _] using rev_ind.
  - rewrite length_app. simpl.
    replace (length pre + 1 - 1)%nat with (length pre + 0)%nat by lia.
    rewrite list_lookup_total_middle by lia.
    rewrite insert_app_r_alt by lia. rewrite Nat.sub_diag. simpl.
    rewrite Nat.add_0_r, take_app_length. by rewrite app_nil_r.
  - rewrite moveLast_snoc.
    replace (pre ++ h :: t ++ [l]) with ((pre ++ h :: t) ++ [l])
      by by rewrite <- app_assoc.
    rewrite (length_app _ [l]). simpl.
    replace (length (pre ++ h :: t) + 1 - 1)%nat
      with (length (pre ++ h :: t) + 0)%nat by lia.
    rewrite list_lookup_total_middle by lia.
    rewrite Nat.add_0_r.
    rewrite insert_app_l by (rewrite length_app; simpl; lia).
    rewrite insert_app_r_alt by lia. rewrite Nat.sub_diag. simpl.
    rewrite take_app_length'; [done|].
    rewrite !length_app. simpl. lia.
Qed.

Lemma cleanupLoop_sweep fuel pre l :
  cleanupLoop fuel (pre ++ l) (length pre) = pre ++ sweep fuel l.
Proof.
  revert pre l. induction fuel as [|fuel IH]; intros pre l; [done|].
  simpl. destruct l as [|h t].
  - rewrite app_nil_r. by rewrite lookup_ge_None_2.
  - rewrite list_lookup_middle by done.
    destruct (incomplete h).
    + rewrite swap_remove. apply IH.
    + replace (pre ++ h :: t) with ((pre ++ [h]) ++ t)
        by by rewrite <- app_assoc.
      replace (S (length pre)) with (length (pre ++ [h]))
        by (rewrite length_app; simpl; lia).
      rewrite IH. by rewrite <- app_assoc.
Qed.

Lemma cleanup_sweep hit : cleanup hit = sweep (length hit) hit.
Proof. apply (cleanupLoop_sweep (length hit) [] hit). Qed.

(** With as many iterations as there are elements the loop has ended:
    more iterations change nothing. *)
Lemma sweep_enough fuel l :
  (length l ≤ fuel)%nat → sweep fuel l = sweep (length l) l.
Proof.
  revert l. induction fuel as [|fuel IH]; intros l Hl.
  - by destruct l; simpl in *; [|lia].
  - destruct l as [|h t]; [done|]. simpl in *.
    destruct (incomplete h).
    + rewrite IH by (rewrite moveLast_length; lia).
      by rewrite moveLast_length.
    + f_equal. apply IH. lia.
Qed.

Lemma sweep_complete fuel l :
  (length l ≤ fuel)%nat → Forall complete (sweep fuel l).
Proof.
  revert l. induction fuel as [|fuel IH]; intros l Hl.
  - destruct l; simpl in *; [constructor|lia].
  - destruct l as [|h t]; [constructor|]. simpl in *.
    destruct (incomplete h) eqn:Hh.
    + apply IH. rewrite moveLast_length. lia.
    + constructor; [done|]. apply IH. lia.
Qed.

Lemma sweep_perm fuel l :
  (length l ≤ fuel)%nat →
  sweep fuel l ≡ₚ filter (λ h, incomplete h = false) l.
Proof.
  revert l. induction fuel as [|fuel IH]; intros l Hl.
  - by destruct l; simpl in *; [|lia].
  - destruct l as [|h t]; [done|]. simpl in *.
    rewrite filter_cons. destruct (incomplete h) eqn:Hh.
    + rewrite decide_False by done.
      rewrite IH by (rewrite moveLast_length; lia).
      by rewrite moveLast_perm.
    + rewrite decide_True by done. rewrite IH by lia. done.
Qed.

Lemma sweep_keeps fuel pre l :
  Forall complete pre →
  sweep (length pre + fuel) (pre ++ l) = pre ++ sweep fuel l.
Proof.
  induction 1 as [|h pre Hh _ IH]; [done|]. simpl. by rewrite Hh, IH.
Qed.

Lemma cleanup_complete hit : Forall complete (cleanup hit).
Proof. rewrite cleanup_sweep. by apply sweep_complete. Qed.

Lemma cleanup_perm hit :
  cleanup hit ≡ₚ filter (λ h, incomplete h = false) hit.
Proof. rewrite cleanup_sweep. by apply sweep_perm. Qed.

(** The records before the first incomplete one stay where they are. *)
Lemma cleanup_keeps pre l :
  Forall complete pre → cleanup (pre ++ l) = pre ++ cleanup l.
Proof.
  intros Hpre. rewrite !cleanup_sweep, length_app.
  by apply sweep_keeps.
Qed.

Lemma cleanup_id hit : Forall complete hit → cleanup hit = hit.
Proof.
  intros H. rewrite <- (app_nil_r hit) at 1.
  rewrite cleanup_keeps by done. by rewrite app_nil_r.
Qed.

(** *** What the parsers append *)

Lemma accepted_coded rec : accepted rec = true → coded rec.
Proof.
  unfold accepted, coded. rewrite andb_true_iff, bool_decide_eq_true, Z.eqb_eq.
  tauto.
Qed.

Lemma checkAppend_app records rec :
  checkAppend records rec = records ++ checkAppend [] rec.
Proof.
  unfold checkAppend. destruct (accepted (normalize rec)); [done|].
  by rewrite app_nil_r.
Qed.

Lemma checkAppend_coded records rec :
  Forall coded records → Forall coded (checkAppend records rec).
Proof.
  intros H. unfold checkAppend.
  destruct (accepted (normalize rec)) eqn:Ha; [|done].
  apply Forall_app. split; [done|].
  constructor; [by apply accepted_coded|constructor].
Qed.

Lemma processLines_coded records lines :
  Forall coded records → Forall coded (processLines records lines).
Proof.
  unfold processLines. generalize (seq 0 (length lines / 4)).
  intros l. revert records.
  induction l as [|i l IH]; intros records H; simpl; [done|].
  apply IH. by apply checkAppend_coded.
Qed.

Lemma txtLoop_coded toks records lines numberSeen :
  Forall coded records → Forall coded (txtLoop toks records lines numberSeen).
Proof.
  revert records lines numberSeen.
  induction toks as [|line toks IH]; intros records lines numberSeen H; simpl.
  - by apply processLines_coded.
  - destruct line as [|c rest]; [by apply IH|].
    repeat case_match; auto using processLines_coded.
Qed.

Lemma parsePDFPdfToText_coded run :
  Forall coded (parsePDFPdfToText run).1.
Proof.
  unfold parsePDFPdfToText, parseTXT.
  repeat case_match; simplify_eq/=; try constructor;
    by apply txtLoop_coded.
Qed.

Lemma xlsxLoop_coded ctx rows k headerSkipped dst rec records hit err :
  Forall coded records →
  xlsxLoop ctx rows k headerSkipped dst rec records = Ret (hit, err) →
  Forall coded hit.
Proof.
  revert k headerSkipped dst rec records.
  induction rows as [|row rows IH]; intros k hs dst rec records H; simpl.
  - by intros [= <- _].
  - destruct hs; simpl.
    + destruct (assignFrom 0 dst row rec) as [rec'| |]; simpl; [|done..].
      destruct (ctx k).
      * intros [= <- _]. by apply checkAppend_coded.
      * apply IH. by apply checkAppend_coded.
    + destruct (index row 3); simpl; [|done..]. by apply IH.
Qed.

Lemma ParseXLSX_coded ctx opened hit err :
  ParseXLSX ctx opened = Ret (hit, err) → Forall coded hit.
Proof.
  unfold ParseXLSX. destruct opened as [e|wb]; [by intros [= <- _]|].
  destruct (xlsx_Rows wb); [by intros [= <- _]|].
  by apply xlsxLoop_coded.
Qed.

Lemma xlsLoop_coded ctx sheet ns k dst rec records hit err :
  Forall coded records →
  xlsLoop ctx sheet ns k dst rec records = Ret (hit, err) →
  Forall coded hit.
Proof.
  revert k rec records.
  induction ns as [|n ns IH]; intros k rec records H; cbn [xlsLoop];
    [by intros [= <- _]|].
  unfold Row. destruct (rows sheet n) as [row|]; simpl; [|done].
  destruct (n <? skip)%nat; [by apply IH|].
  destruct (ctx k); [intros [= <- _]; by apply checkAppend_coded|].
  apply IH. by apply checkAppend_coded.
Qed.

Lemma ParseXLS_coded ctx env sr hit err :
  ParseXLS ctx env sr = Ret (hit, err) → Forall coded hit.
Proof.
  unfold ParseXLS. destruct (xls_OpenReader env sr) as [e|wb].
  - destruct (Seek env); [by intros [= <- _]|]. apply ParseXLSX_coded.
  - destruct (GetSheet0 wb) as [sheet|]; [|by intros [= <- _]].
    by apply xlsLoop_coded.
Qed.

Lemma parseSheet_coded env ctx sr hit err :
  parseSheet env ctx sr = Ret (hit, err) → Forall coded hit.
Proof.
  unfold parseSheet.
  destruct (ParseXLSX ctx (excelize_OpenReader env sr)) as [[hit0 err0]| |]
    eqn:Hx; simpl; [|done..].
  destruct (fallsBack err0).
  - apply ParseXLS_coded.
  - intros [= <- _]. by eapply ParseXLSX_coded.
Qed.

(** *** [Parse] along its three ways *)

Lemma Parse_route env ctx r :
  Parse env ctx r =
  match route env r with
  | Failed err => Ret ([], Some err)
  | ToPDF sr => ParsePDF env sr
  | ToSheet sr => '(hit, err) ← parseSheet env ctx sr; mret (cleanup hit, err)
  end.
Proof.
  unfold Parse, route, parseSheet.
  repeat (case_match; simplify_eq/=; try done).
  all: by destruct (ParseXLSX _ _) as [[??]| |].
Qed.

Lemma complete_spec h :
  complete h ↔ Bankszerv h ≠ "" ∧ Nev h ≠ "" ∧ (Irszam h ≠ "" ∨ Cim h ≠ "").
Proof.
  unfold complete, incomplete.
  rewrite !orb_false_iff, andb_false_iff, !String.eqb_neq. tauto.
Qed.

Lemma coded_complete_valid h : coded h → complete h → valid h.
Proof.
  intros [Hc _] (_ & Hn & Ha)%complete_spec. by split.
Qed.

(** *** The parsers append in the order of the rows *)

Lemma index_Ret (row : list string) i s : index row i = Ret s → row !!! i = s.
Proof.
  unfold index. destruct (row !! i) eqn:H; [|done].
  intros [= <-]. by apply list_lookup_total_correct.
Qed.

Lemma tabulaLoop_order rows hit hit' :
  tabulaLoop rows hit = Ret hit' → hit' = hit ++ map tabulaRecord rows.
Proof.
  revert hit. induction rows as [|row rows IH]; intros hit; simpl.
  - intros [= <-]. by rewrite app_nil_r.
  - destruct (index row 0) as [r0| |] eqn:H0; simpl; [|done..].
    destruct (index row 1) as [r1| |] eqn:H1; simpl; [|done..].
    destruct (index row 2) as [r2| |] eqn:H2; simpl; [|done..].
    destruct (index row 3) as [r3| |] eqn:H3; simpl; [|done..].
    intros ->%IH. rewrite <- app_assoc. simpl. unfold tabulaRecord.
    by rewrite (index_Ret _ _ _ H0), (index_Ret _ _ _ H1),
      (index_Ret _ _ _ H2), (index_Ret _ _ _ H3).
Qed.

Lemma assignFrom_layout (b : bool) row (rec rec' : Hitelezo) :
  (if b then Irszam rec else BIC rec) = "" →
  assignFrom 0 (layout b) row rec = Ret rec' → rec' = rowRecord b row.
Proof.
  intros Hrec. unfold layout, rowRecord. destruct b; simpl.
  all: destruct (index row 0) as [r0| |] eqn:H0; simpl; [|done..].
  all: destruct (index row 1) as [r1| |] eqn:H1; simpl; [|done..].
  all: destruct (index row 2) as [r2| |] eqn:H2; simpl; [|done..].
  all: destruct (index row 3) as [r3| |] eqn:H3; simpl; [|done..].
  all: intros [= <-]; unfold store; simpl; rewrite Hrec.
  all: by rewrite (index_Ret _ _ _ H0), (index_Ret _ _ _ H1),
         (index_Ret _ _ _ H2), (index_Ret _ _ _ H3).
Qed.

Lemma xlsxLoop_order ctx rows k (b : bool) (rec : Hitelezo) records hit err :
  (if b then Irszam rec else BIC rec) = "" →
  xlsxLoop ctx rows k true (layout b) rec records = Ret (hit, err) →
  ∃ n, hit = records
             ++ flat_map (λ row, checkAppend [] (rowRecord b row)) (take n rows)
       ∧ (err = None → n = length rows).
Proof.
  revert k rec records. induction rows as [|row rows IH];
    intros k rec records Hrec; simpl.
  - intros [= <- <-]. exists 0%nat. by rewrite app_nil_r.
  - destruct (assignFrom 0 (layout b) row rec) as [rec'| |] eqn:Ha; simpl;
      [|done..].
    apply assignFrom_layout in Ha as ->; [|done].
    rewrite checkAppend_app. destruct (ctx k) as [e|].
    + intros [= <- <-]. exists 1%nat. simpl. by rewrite app_nil_r.
    + intros (n & -> & Hn)%IH; [|by destruct b].
      exists (S n). simpl. rewrite <- app_assoc. split; [done|].
      intros ->%Hn. done.
Qed.

(** [ParseXLSX] appends the accepted records in the order of the rows
    below the header, up to the row at which the context is seen
    cancelled. *)
Lemma ParseXLSX_order ctx wb header data hit err :
  xlsx_Rows wb = None → xlsx_rows wb = header :: data →
  ParseXLSX ctx (inr wb) = Ret (hit, err) →
  let b := String.eqb (header !!! 3%nat) "Address of the branch office" in
  ∃ n, hit = flat_map (λ row, checkAppend [] (rowRecord b row)) (take n data)
       ∧ (err = None → n = length data).
Proof.
  intros Hr Hrows. unfold ParseXLSX. rewrite Hr, Hrows. simpl.
  destruct (index header 3) as [cell| |] eqn:Hc; simpl; [|done..].
  rewrite (index_Ret _ _ _ Hc).
  intros H.
  apply (xlsxLoop_order ctx data 0 (String.eqb cell _) zeroHitelezo []).
  - by destruct (String.eqb cell _).
  - unfold layout. by destruct (String.eqb cell _).
Qed.

(** [parsePDFTabula] appends one record per CSV record, in order. *)
Lemma parsePDFTabula_order run hit err :
  tabula_setup run = None →
  parsePDFTabula run = Ret (hit, err) →
  hit = map tabulaRecord (tabula_rows run).
Proof.
  intros Hs. unfold parsePDFTabula. rewrite Hs.
  destruct (tabulaLoop (tabula_rows run) []) as [hit'| |] eqn:Ht; simpl; [|done..].
  apply tabulaLoop_order in Ht as ->.
  by destruct (tabula_stop run); intros [= <- _].
Qed.

(** ** The claims about [Parse] *)

(** C1, as amended.  Every record [Parse] returns on a spreadsheet way
    is valid: its branch code has 8 bytes, its name is not empty and
    its postal code or its address is not empty.  On the PDF way, when
    the records come from the text-extraction path, every record has a
    branch code of 8 bytes and is not the empty record.  A stream that
    cannot be read or sniffed gives no record. *)
Theorem Parse_valid env ctx r hit err :
  Parse env ctx r = Ret (hit, err) →
  match route env r with
  | ToSheet _ => Forall valid hit
  | ToPDF sr => viaText env sr → Forall coded hit
  | Failed _ => hit = []
  end.
Proof.
  rewrite Parse_route. destruct (route env r) as [e|sr|sr].
  - by intros [= <- _].
  - intros HP (hit0 & err0 & Ht). revert HP. unfold ParsePDF.
    rewrite Ht. simpl. intros [= Heq].
    pose proof (parsePDFPdfToText_coded (pdftotext env sr)) as Hc.
    by rewrite Heq in Hc.
  - destruct (parseSheet env ctx sr) as [[hit0 err0]| |] eqn:Hs; simpl; [|done..].
    intros [= <- _].
    apply parseSheet_coded in Hs.
    pose proof (cleanup_complete hit0) as Hc.
    pose proof (cleanup_perm hit0) as Hp.
    rewrite Forall_forall in *. intros h Hh.
    apply coded_complete_valid; [|by apply Hc].
    apply Hs. rewrite Hp in Hh. by apply list_elem_of_filter in Hh as [_ ?].
Qed.

Lemma Parse_valid_witness :
  Parse (envSheet fourRows) Background (Some sheetStream)
  = Ret ([elso; negyedik; harmadik], None)
  ∧ Forall valid [elso; negyedik; harmadik].
Proof.
  assert (Parse (envSheet fourRows) Background (Some sheetStream)
          = Ret ([elso; negyedik; harmadik], None)) as H
    by (vm_compute; reflexivity).
  split; [exact H|].
  exact (Parse_valid (envSheet fourRows) Background (Some sheetStream) _ _ H).
Defined.

(** C1 fails as stated: a PDF read through the text-extraction path may
    give a record without a name, and [Parse] returns it. *)
Lemma Parse_pdf_record_without_name :
  let h := mkHitelezo "10002003" "" "" "1139" "Budapest" in
  Parse (envText (unlines ["10002003"; " "; "1139"; "Budapest"; formFeed]))
    Background (Some pdfStream)
  = Ret ([h], None)
  ∧ ¬ valid h.
Proof.
  split; [vm_compute; reflexivity|].
  intros (_ & Hn & _). by apply Hn.
Qed.

(** C2, as amended.  On a spreadsheet way [Parse] runs its closing loop
    over the records of the spreadsheet parsers, and no record it
    returns has an empty branch code, an empty name, or both an empty
    postal code and an empty address.  On the PDF way [Parse] returns
    what [ParsePDF] returns, without that loop. *)
Theorem Parse_cleanup env ctx r hit err :
  Parse env ctx r = Ret (hit, err) →
  match route env r with
  | ToSheet sr =>
      (∃ hit0, parseSheet env ctx sr = Ret (hit0, err) ∧ hit = cleanup hit0)
      ∧ Forall (λ h, Bankszerv h ≠ "" ∧ Nev h ≠ ""
                     ∧ ¬ (Irszam h = "" ∧ Cim h = "")) hit
  | ToPDF sr => ParsePDF env sr = Ret (hit, err)
  | Failed e => hit = [] ∧ err = Some e
  end.
Proof.
  rewrite Parse_route. destruct (route env r) as [e|sr|sr].
  - by intros [= <- <-].
  - done.
  - destruct (parseSheet env ctx sr) as [[hit0 err0]| |] eqn:Hs; simpl; [|done..].
    intros [= <- <-]. split; [by exists hit0|].
    eapply Forall_impl; [apply cleanup_complete|].
    intros h (? & ? & ?)%complete_spec. repeat split; tauto.
Qed.

Lemma Parse_cleanup_witness :
  Parse (envSheet fourRows) Background (Some sheetStream)
  = Ret ([elso; negyedik; harmadik], None)
  ∧ [elso; negyedik; harmadik] = cleanup [elso; nevtelen; harmadik; negyedik].
Proof.
  assert (Parse (envSheet fourRows) Background (Some sheetStream)
          = Ret ([elso; negyedik; harmadik], None)) as H
    by (vm_compute; reflexivity).
  split; [exact H|].
  destruct (Parse_cleanup (envSheet fourRows) Background (Some sheetStream)
              _ _ H) as [(hit0 & Hs & Hc) _].
  vm_compute in Hs. by injection Hs as <-.
Defined.

(** C2 fails as stated: on the PDF way the closing loop is not run, and
    a record with neither postal code nor address is returned. *)
Lemma Parse_pdf_record_without_address :
  let h := mkHitelezo "10002003" "" "Magyar" "" "" in
  Parse (envText (unlines ["10002003"; "Magyar"; " "; " "; formFeed]))
    Background (Some pdfStream)
  = Ret ([h], None)
  ∧ Irszam h = "" ∧ Cim h = "".
Proof. split; [vm_compute; reflexivity|done]. Qed.

(** C3, as amended.  On the PDF way [Parse] returns the sequence
    [ParsePDF] built, as it is.  On a spreadsheet way the sequence
    returned holds the complete records of the parser's sequence, each
    as often as there, but not always in that order: the order is the
    parser's when no record is removed, and the records before the
    first removed one stay in place. *)
Theorem Parse_order env ctx r hit err :
  Parse env ctx r = Ret (hit, err) →
  match route env r with
  | ToSheet sr =>
      ∃ hit0, parseSheet env ctx sr = Ret (hit0, err)
        ∧ hit ≡ₚ filter (λ h, incomplete h = false) hit0
        ∧ (Forall complete hit0 → hit = hit0)
        ∧ (∀ pre rest, hit0 = pre ++ rest → Forall complete pre →
             hit = pre ++ cleanup rest)
  | ToPDF sr => ParsePDF env sr = Ret (hit, err)
  | Failed _ => hit = []
  end.
Proof.
  rewrite Parse_route. destruct (route env r) as [e|sr|sr].
  - by intros [= <- _].
  - done.
  - destruct (parseSheet env ctx sr) as [[hit0 err0]| |] eqn:Hs; simpl; [|done..].
    intros [= <- <-]. exists hit0. split_and!; [done|..].
    + apply cleanup_perm.
    + apply cleanup_id.
    + intros pre rest -> Hpre. by apply cleanup_keeps.
Qed.

Lemma Parse_order_witness :
  Parse (envSheet fourRows) Background (Some sheetStream)
  = Ret ([elso; negyedik; harmadik], None)
  ∧ [elso; negyedik; harmadik]
    ≡ₚ filter (λ h, incomplete h = false) [elso; nevtelen; harmadik; negyedik].
Proof.
  assert (Parse (envSheet fourRows) Background (Some sheetStream)
          = Ret ([elso; negyedik; harmadik], None)) as H
    by (vm_compute; reflexivity).
  split; [exact H|].
  destruct (Parse_order (envSheet fourRows) Background (Some sheetStream)
              _ _ H) as (hit0 & Hs & Hp & _).
  vm_compute in Hs. by injection Hs as <-.
Defined.

(** C3 fails as stated: the closing loop moves the last record into the
    place of a removed one, here the fourth row's record before the
    third row's. *)
Lemma Parse_sheet_reorders :
  parseSheet (envSheet fourRows) Background (content sheetStream)
  = Ret ([elso; nevtelen; harmadik; negyedik], None)
  ∧ Parse (envSheet fourRows) Background (Some sheetStream)
    = Ret ([elso; negyedik; harmadik], None)
  ∧ ¬ [elso; negyedik; harmadik] `sublist_of`
        [elso; nevtelen; harmadik; negyedik].
Proof.
  split_and!; [vm_compute; reflexivity..|].
  intros H.
  repeat match goal with
         | H : _ `sublist_of` _ |- _ => inversion H; clear H; simplify_eq
         end.
Qed.

(** C9.  A stream of fewer than 1024 bytes makes [Parse] return an
    error and no record, whatever the decoders would make of the bytes:
    the error is [io.EOF], from the short read of the first 1024 bytes,
    unless reading the stream failed before, which is then the error,
    as the section reader wraps it. *)
Theorem Parse_short_stream env ctx (r : Reader) :
  len (content r) < 1024 →
  Parse env ctx (Some r)
  = Ret ([], Some (match failure r with
                   | Some err => Wrap "read below threshold" err
                   | None => EOF
                   end)).
Proof.
  intros Hlen. unfold Parse, MakeSectionReader, ReadAt.
  change (Z.shiftl 1 20) with 1048576.
  destruct (Z.ltb_spec (len (content r)) 1048576); [|lia].
  destruct (failure r); [done|].
  change (Z.of_nat 1024) with 1024.
  by destruct (Z.ltb_spec (len (content r)) 1024); [|lia].
Qed.

Lemma Parse_short_stream_witness :
  Parse (envSheet fourRows) Background
    (Some {| content := "PK"; failure := None |})
  = Ret ([], Some EOF).
Proof.
  apply (Parse_short_stream (envSheet fourRows) Background
           {| content := "PK"; failure := None |}).
  vm_compute. reflexivity.
Defined.

(** ** [parseTXT] on one page *)

(** C8.  The four lines ["10002003"], ["Magyar Államkincstár"],
    ["1139"], ["Budapest, Váci út 71."] followed by a form feed give
    exactly one record with these four fields, and no error; so it is
    when the form feed stands on a line of its own, when a line feed
    follows it, and when it follows the last line directly. *)
Theorem parseTXT_one_page :
  let page := ["10002003"; "Magyar Államkincstár"; "1139";
               "Budapest, Váci út 71."] in
  let record := mkHitelezo "10002003" "" "Magyar Államkincstár" "1139"
                  "Budapest, Váci út 71." in
  parseTXT (unlines page +:+ formFeed) = ([record], None)
  ∧ parseTXT (unlines (page ++ [formFeed])) = ([record], None)
  ∧ parseTXT ("10002003" +:+ String "010" ("Magyar Államkincstár"
               +:+ String "010" ("1139" +:+ String "010"
               ("Budapest, Váci út 71." +:+ formFeed))))
    = ([record], None).
Proof. split_and!; vm_compute; reflexivity. Qed.

(** ** Rows with fewer than four cells *)

Lemma index_lt row i : (i < length row)%nat → ∃ s, index row i = Ret s.
Proof.
  intros H. unfold index.
  destruct (lookup_lt_is_Some_2 row i H) as [s ->]. by exists s.
Qed.

Lemma index_ge row i : (length row ≤ i)%nat → index row i = Panic i (length row).
Proof. intros H. unfold index. by rewrite lookup_ge_None_2. Qed.

Lemma tabulaLoop_safe rows hit :
  Forall (λ row, 4 ≤ length row)%nat rows →
  ∃ hit', tabulaLoop rows hit = Ret hit'.
Proof.
  intros H. revert hit. induction H as [|row rows Hrow _ IH]; intros hit.
  - by exists hit.
  - simpl.
    destruct (index_lt row 0) as [r0 ->]; [lia|].
    destruct (index_lt row 1) as [r1 ->]; [lia|].
    destruct (index_lt row 2) as [r2 ->]; [lia|].
    destruct (index_lt row 3) as [r3 ->]; [lia|].
    simpl. apply IH.
Qed.

Lemma tabulaLoop_short rows hit :
  Exists (λ row, length row < 4)%nat rows →
  panics (tabulaLoop rows hit) = true.
Proof.
  intros H. revert hit. induction H as [row rows Hrow|row rows _ IH];
    intros hit; simpl.
  - destruct row as [|r0 [|r1 [|r2 [|r3 row]]]]; simpl in *; done || lia.
  - destruct row as [|r0 [|r1 [|r2 [|r3 row]]]]; simpl; auto.
Qed.

Lemma assignFrom_safe dst row rec j :
  (j + length dst ≤ length row)%nat →
  ∃ rec', assignFrom j dst row rec = Ret rec'.
Proof.
  revert rec j. induction dst as [|p dst IH]; intros rec j H; simpl in *.
  - by exists rec.
  - destruct (index_lt row j) as [v ->]; [lia|]. simpl. apply IH. lia.
Qed.

Lemma assignFrom_short dst row rec j :
  dst ≠ [] → (length row < j + length dst)%nat →
  panics (assignFrom j dst row rec) = true.
Proof.
  revert rec j. induction dst as [|p dst IH]; intros rec j Hne H; [done|].
  simpl in *. destruct (decide (j < length row)%nat) as [Hj|Hj].
  - destruct (index_lt row j Hj) as [v ->]. simpl.
    apply IH; [|lia]. intros ->. simpl in *. lia.
  - by rewrite index_ge by lia.
Qed.

Lemma xlsxLoop_safe ctx rows k headerSkipped dst rec records :
  Forall (λ row, 4 ≤ length row)%nat rows → (length dst ≤ 4)%nat →
  panics (xlsxLoop ctx rows k headerSkipped dst rec records) = false.
Proof.
  intros H. revert k headerSkipped dst rec records.
  induction H as [|row rows Hrow _ IH]; intros k hs dst rec records Hd; [done|].
  simpl. destruct hs; simpl.
  - destruct (assignFrom_safe dst row rec 0) as [rec' ->]; [lia|]. simpl.
    destruct (ctx k); [done|]. by apply IH.
  - destruct (index_lt row 3) as [cell ->]; [lia|]. simpl.
    apply IH. by destruct (String.eqb cell _).
Qed.

Lemma xlsxLoop_short rows k headerSkipped dst rec records :
  Exists (λ row, length row < 4)%nat rows → length dst = 4%nat →
  panics (xlsxLoop Background rows k headerSkipped dst rec records) = true.
Proof.
  intros H. revert k headerSkipped dst rec records.
  induction H as [row rows Hrow|row rows _ IH];
    intros k hs dst rec records Hd; simpl.
  - destruct hs; simpl.
    + rewrite <- (negb_involutive (panics _)).
      destruct (assignFrom 0 dst row rec) as [rec'| |] eqn:Ha; [|done..].
      pose proof (assignFrom_short dst row rec 0) as Hp.
      rewrite Ha in Hp. simpl in Hp.
      exfalso. enough (false = true) by done.
      apply Hp; [by destruct dst|lia].
    + by rewrite index_ge by lia.
  - destruct hs; simpl.
    + destruct (assignFrom 0 dst row rec) as [rec'| |]; simpl; [|done..].
      by apply IH.
    + destruct (index row 3) as [cell| |]; simpl; [|done..].
      apply IH. by destruct (String.eqb cell _).
Qed.

(** C10.  [parsePDFTabula] reads [row[0]] to [row[3]] of every record
    and [ParseXLSX] reads [row[3]] of the header row and [row[0]] to
    [row[3]] of every other row.  When every row has at least four
    cells no access is out of range.  A row with fewer than four cells
    makes the access panic: in [parsePDFTabula] whenever the CSV loop is
    reached, in [ParseXLSX] whenever the rows are read and the context
    is not cancelled before that row. *)
Theorem row_access_in_range :
  (∀ run, Forall (λ row, 4 ≤ length row)%nat (tabula_rows run) →
          panics (parsePDFTabula run) = false)
  ∧ (∀ ctx wb, Forall (λ row, 4 ≤ length row)%nat (xlsx_rows wb) →
               panics (ParseXLSX ctx (inr wb)) = false)
  ∧ (∀ run, tabula_setup run = None →
            Exists (λ row, length row < 4)%nat (tabula_rows run) →
            panics (parsePDFTabula run) = true)
  ∧ (∀ wb, xlsx_Rows wb = None →
           Exists (λ row, length row < 4)%nat (xlsx_rows wb) →
           panics (ParseXLSX Background (inr wb)) = true).
Proof.
  split_and!.
  - intros run H. unfold parsePDFTabula.
    destruct (tabula_setup run); [done|].
    destruct (tabulaLoop_safe _ [] H) as [hit ->]. simpl.
    by destruct (tabula_stop run).
  - intros ctx wb H. unfold ParseXLSX.
    destruct (xlsx_Rows wb); [done|]. apply xlsxLoop_safe; [done|simpl; lia].
  - intros run Hs H. unfold parsePDFTabula. rewrite Hs.
    pose proof (tabulaLoop_short _ [] H) as Hp.
    by destruct (tabulaLoop (tabula_rows run) []).
  - intros wb Hr H. unfold ParseXLSX. rewrite Hr.
    by apply xlsxLoop_short.
Qed.

Lemma row_access_in_range_witness :
  panics (parsePDFTabula (tabulaPrints [header])) = false
  ∧ panics (ParseXLSX Background (inr {| xlsx_Rows := None;
                                         xlsx_rows := fourRows |})) = false
  ∧ panics (parsePDFTabula (tabulaPrints [["10000001"; "Elso Bank"; "1011"]]))
    = true
  ∧ panics (ParseXLSX Background
              (inr {| xlsx_Rows := None;
                      xlsx_rows := [header; ["10000001"; "Elso Bank"]] |}))
    = true.
Proof.
  destruct row_access_in_range as (H1 & H2 & H3 & H4).
  split_and!.
  - apply H1. repeat constructor.
  - apply H2. repeat constructor.
  - apply H3; [reflexivity|]. apply Exists_cons_hd. simpl. lia.
  - apply H4; [reflexivity|]. apply Exists_cons_tl, Exists_cons_hd. simpl. lia.
Defined.

(** ** [DefaultPattern] *)

Lemma isDigit_digitBytes c : isDigit c = true → c ∈ digitBytes.
Proof.
  destruct c as [[] [] [] [] [] [] [] []]; vm_compute; intros H;
    try discriminate H; clear H; unfold digitBytes;
    repeat first [apply list_elem_of_here | apply list_elem_of_further].
Qed.

Lemma matchWhole_byte r c s b r' :
  deriv c b r = r' → matchWhole r (String c s) b = matchWhole r' s false.
Proof. by intros <-. Qed.

(** A byte of which only a list of candidates is known, the derivative
    being the same for all of them. *)
Lemma matchWhole_among l r r' c s :
  c ∈ l →
  Forall (λ d, deriv d false r = r') l →
  matchWhole r (String c s) false = matchWhole r' s false.
Proof.
  intros Hc Hr. apply matchWhole_byte.
  rewrite Forall_forall in Hr. by apply Hr.
Qed.

(** One byte of the text that is known. *)
Ltac known_byte :=
  lazymatch goal with
  | |- matchWhole ?r (String ?c ?s) ?b = _ =>
      tryif is_var c then fail else
        let r' := eval vm_compute in (deriv c b r) in
        rewrite (matchWhole_byte r c s b r');
        [|vm_compute; reflexivity]
  end.

(** One byte of the text that is one of [l]. *)
Ltac byte_among l c0 :=
  lazymatch goal with
  | |- matchWhole ?r (String ?c ?s) false = _ =>
      let r' := eval vm_compute in (deriv c0 false r) in
      rewrite (matchWhole_among l r r' c s);
      [|by auto using isDigit_digitBytes
       |repeat (constructor; [vm_compute; reflexivity|]); constructor]
  end.

Ltac digit_byte := byte_among digitBytes "0"%char.

Ltac spell :=
  lazymatch goal with
  | |- MatchString ?r ?s = _ =>
      let s' := eval vm_compute in s in
      change (matchWhole (Seq (Star AnyByte) (Seq r (Star AnyByte))) s' true
              = true)
  end.

Lemma digits_S n d :
  digits (S n) d →
  ∃ c d', d = String c d' ∧ isDigit c = true ∧ digits n d'.
Proof.
  intros [Hl Hd]. destruct d as [|c d']; [done|].
  simpl in *. apply Forall_cons in Hd as [Hc Hd].
  exists c, d'. repeat split; auto.
Qed.

Lemma digits_0 d : digits 0 d → d = "".
Proof. intros [Hl _]. by destruct d. Qed.

Ltac spell_digits H :=
  repeat (apply digits_S in H as (? & ? & -> & ? & H));
  apply digits_0 in H as ->.

Lemma EHT_matches d ext :
  digits 8 d → ext = "pdf" ∨ ext = "xls" ∨ ext = "xlsx" →
  MatchString DefaultPattern ("EHT_" +:+ d +:+ "." +:+ ext) = true.
Proof.
  intros Hd Hext. spell_digits Hd.
  assert (∀ c s r, isDigit c = true →
            matchWhole r (String "2" s) false = true →
            (c ∈ ["0"; "1"; "3"; "4"; "5"; "6"; "7"; "8"; "9"]%char →
               matchWhole r (String c s) false = true) →
            matchWhole r (String c s) false = true) as Hsplit.
  { intros c s r Hc Htwo Hother.
    apply isDigit_digitBytes in Hc. unfold digitBytes in Hc.
    rewrite !elem_of_cons in Hc. rewrite !elem_of_cons in Hother.
    destruct Hc as [->|[->|[->|Hc]]]; auto 20. }
  destruct Hext as [->|[->| ->]]; spell; do 4 known_byte.
  all: apply Hsplit; [done| |intros Hx].
  all: first [known_byte
             |byte_among ["0"; "1"; "3"; "4"; "5"; "6"; "7"; "8"; "9"]%char
                "0"%char].
  all: do 7 digit_byte.
  all: repeat known_byte.
  all: reflexivity.
Qed.

Lemma AVT_matches a b y ext :
  digits 2 a → digits 2 b → digits 3 y →
  ext = "pdf" ∨ ext = "xls" ∨ ext = "xlsx" →
  MatchString DefaultPattern
    ("AVT_" +:+ a +:+ "_" +:+ b +:+ "_2" +:+ y +:+ "." +:+ ext) = true.
Proof.
  intros Ha Hb Hy Hext. spell_digits Ha. spell_digits Hb. spell_digits Hy.
  destruct Hext as [->|[->| ->]]; spell; do 4 known_byte.
  all: do 2 digit_byte; known_byte; do 2 digit_byte; do 2 known_byte.
  all: do 3 digit_byte.
  all: repeat known_byte.
  all: reflexivity.
Qed.

(** *** Names the pattern does not match *)

Lemma searching_first c :
  c ≠ "E"%char → c ≠ "A"%char → c ≠ "-"%char →
  deriv c true searching = if Ascii.eqb c "010" then searching else waiting.
Proof.
  destruct c as [[] [] [] [] [] [] [] []]; intros HE HA Hh;
    try done; vm_compute; reflexivity.
Qed.

Lemma waiting_next c :
  c ≠ "-"%char →
  deriv c false waiting = if Ascii.eqb c "010" then searching else waiting.
Proof.
  destruct c as [[] [] [] [] [] [] [] []]; intros Hh;
    try done; vm_compute; reflexivity.
Qed.

Lemma searching_next c : deriv c false searching = searching.
Proof. destruct c as [[] [] [] [] [] [] [] []]; vm_compute; reflexivity. Qed.

Lemma no_hyphen_no_match s :
  "-"%char ∉ String.list_ascii_of_string s →
  matchWhole searching s false = false ∧ matchWhole waiting s false = false.
Proof.
  induction s as [|c s IH]; [by split; vm_compute|].
  intros [Hc Hs]%not_elem_of_cons. destruct (IH Hs) as [IH1 IH2].
  split.
  - rewrite (matchWhole_byte _ c s false searching (searching_next c)). done.
  - rewrite (matchWhole_byte _ c s false _ (waiting_next c ltac:(congruence))).
    by destruct (Ascii.eqb c "010").
Qed.

Lemma DefaultPattern_unrelated s :
  "-"%char ∉ String.list_ascii_of_string s →
  HasPrefix s "E" = false → HasPrefix s "A" = false →
  MatchString DefaultPattern s = false.
Proof.
  intros Hh HE HA. unfold MatchString. fold searching.
  destruct s as [|c s]; [by vm_compute|].
  simpl in Hh. apply not_elem_of_cons in Hh as [Hc Hs].
  assert (c ≠ "E"%char) as HcE by (intros ->; by vm_compute in HE).
  assert (c ≠ "A"%char) as HcA by (intros ->; by vm_compute in HA).
  assert (c ≠ "-"%char) as Hch by congruence.
  rewrite (matchWhole_byte _ c s true _ (searching_first c HcE HcA Hch)).
  destruct (no_hyphen_no_match s Hs). by destruct (Ascii.eqb c "010").
Qed.

(** C6, as amended.  [DefaultPattern] matches every name of the forms
    [EHT_YYYYMMDD.xlsx] and [EHT_YYYYMMDD.pdf], eight decimal digits of
    any value, and every name of the form [AVT_NN_NN_YYYY.xls] whose
    year starts with the digit 2.  It does not match [readme.txt], nor
    any other name that has no hyphen and starts with neither [E] nor
    [A]. *)
Theorem DefaultPattern_forms :
  (∀ d, digits 8 d →
        MatchString DefaultPattern ("EHT_" +:+ d +:+ ".xlsx") = true
        ∧ MatchString DefaultPattern ("EHT_" +:+ d +:+ ".pdf") = true)
  ∧ (∀ a b y, digits 2 a → digits 2 b → digits 3 y →
        MatchString DefaultPattern
          ("AVT_" +:+ a +:+ "_" +:+ b +:+ "_2" +:+ y +:+ ".xls") = true)
  ∧ MatchString DefaultPattern "readme.txt" = false
  ∧ (∀ s, "-"%char ∉ String.list_ascii_of_string s →
          HasPrefix s "E" = false → HasPrefix s "A" = false →
          MatchString DefaultPattern s = false).
Proof.
  split_and!.
  - intros d Hd. split.
    + apply (EHT_matches d "xlsx"); auto.
    + apply (EHT_matches d "pdf"); auto.
  - intros a b y Ha Hb Hy. apply (AVT_matches a b y "xls"); auto.
  - vm_compute. reflexivity.
  - apply DefaultPattern_unrelated.
Qed.

Lemma DefaultPattern_forms_witness :
  MatchString DefaultPattern "EHT_20210401.xlsx" = true
  ∧ MatchString DefaultPattern "EHT_20210401.pdf" = true
  ∧ MatchString DefaultPattern "AVT_01_02_2021.xls" = true
  ∧ MatchString DefaultPattern "index.html" = false.
Proof.
  destruct DefaultPattern_forms as (HE & HA & _ & HU).
  assert (digits 8 "20210401") as H8 by (split; [reflexivity|repeat constructor]).
  assert (digits 2 "01") as H01 by (split; [reflexivity|repeat constructor]).
  assert (digits 2 "02") as H02 by (split; [reflexivity|repeat constructor]).
  assert (digits 3 "021") as H3 by (split; [reflexivity|repeat constructor]).
  split_and!.
  - exact (proj1 (HE "20210401" H8)).
  - exact (proj2 (HE "20210401" H8)).
  - exact (HA "01" "02" "021" H01 H02 H3).
  - apply HU; [|reflexivity..].
    intros H%list_elem_of_In. vm_compute in H. intuition discriminate.
Defined.

(** C6 fails as stated: a name of the form [AVT_NN_NN_YYYY.xls] whose
    year does not start with 2 is not matched. *)
Lemma DefaultPattern_AVT_1999 :
  digits 2 "01" ∧ digits 2 "02" ∧ digits 4 "1999"
  ∧ MatchString DefaultPattern ("AVT_" +:+ "01" +:+ "_" +:+ "02" +:+ "_"
                                +:+ "1999" +:+ ".xls") = false.
Proof.
  split_and!; try (split; [reflexivity|repeat constructor]).
  vm_compute. reflexivity.
Qed.

(** ** [SearchXLSURL] *)

(** *** The order of byte strings *)

Lemma ltb_leb s1 s2 : String.ltb s1 s2 = negb (String.leb s2 s1).
Proof.
  unfold String.ltb, String.leb. rewrite (String.compare_antisym s1 s2).
  by destruct (String.compare s2 s1).
Qed.

Lemma leb_trans s1 s2 s3 :
  String.leb s1 s2 = true → String.leb s2 s3 = true → String.leb s1 s3 = true.
Proof.
  intros H1%Is_true_true H2%Is_true_true. apply Is_true_true.
  change (String.le s1 s3). by trans s2.
Qed.

Lemma lessBase_StrictWeak : StrictWeak lessBase.
Proof.
  unfold lessBase. split_and!.
  - intros x. rewrite ltb_leb.
    by destruct (String.leb_total (path_Base x) (path_Base x)) as [-> | ->].
  - intros x y z. rewrite !ltb_leb, !negb_true_iff.
    intros Hxy Hyz.
    destruct (String.leb (path_Base z) (path_Base x)) eqn:Hzx; [|done].
    destruct (String.leb_total (path_Base x) (path_Base y)) as [H|H];
      [|congruence].
    by rewrite (leb_trans _ _ _ Hzx H) in Hyz.
  - intros x y z. rewrite !ltb_leb, !negb_false_iff.
    intros Hxy Hyz. by eapply leb_trans.
Qed.

(** *** Sorted slices *)

Lemma SliceIsSorted_le less l i j x y :
  StrictWeak less → SliceIsSorted less l →
  (i ≤ j)%nat → l !! i = Some x → l !! j = Some y → less y x = false.
Proof.
  intros (Hirr & _ & Hneg) Hs Hij Hi. revert y.
  induction Hij as [|j Hij IH]; intros y Hj.
  - replace y with x by congruence. apply Hirr.
  - destruct (lookup_lt_is_Some_2 l j) as [z Hz].
    { apply lookup_lt_Some in Hj. lia. }
    eapply Hneg; [by eapply Hs|by apply IH].
Qed.

Lemma insertBy_perm less x l : insertBy less x l ≡ₚ x :: l.
Proof.
  induction l as [|y l IH]; simpl; [done|].
  destruct (less x y); [done|]. by rewrite IH, Permutation_swap.
Qed.

Lemma insertionSort_perm l less : insertionSort l less ≡ₚ l.
Proof.
  induction l as [|x l IH]; simpl; [done|].
  by rewrite insertBy_perm, IH.
Qed.

Lemma SliceIsSorted_cons less x l :
  SliceIsSorted less (x :: l) ↔
  SliceIsSorted less l ∧ (∀ y, head l = Some y → less y x = false).
Proof.
  unfold SliceIsSorted. split.
  - intros H. split.
    + intros i a b Ha Hb. by apply (H (S i)).
    + intros y Hy. apply (H 0%nat); [done|]. by destruct l; simplify_eq/=.
  - intros [Hl Hh] [|i] a b Ha Hb; simplify_eq/=.
    + apply Hh. by destruct l; simplify_eq/=.
    + by eapply Hl.
Qed.

Lemma insertBy_sorted less x l :
  StrictWeak less → SliceIsSorted less l → SliceIsSorted less (insertBy less x l).
Proof.
  intros (Hirr & Htr & _). induction l as [|y l IH]; intros Hs; simpl.
  - by intros [|i] a b ??; simplify_eq/=.
  - destruct (less x y) eqn:Hxy.
    + apply SliceIsSorted_cons. split; [done|]. intros ? [= <-].
      destruct (less y x) eqn:Hyx; [|done].
      pose proof (Htr y x y Hyx Hxy) as Hc. by rewrite Hirr in Hc.
    + apply SliceIsSorted_cons in Hs as [Hs Hh].
      apply SliceIsSorted_cons. split; [by apply IH|].
      intros z Hz. destruct l as [|y' l]; simpl in *.
      * by simplify_eq.
      * destruct (less x y'); simplify_eq/=; auto.
Qed.

Lemma insertionSort_SortsSlice : SortsSlice insertionSort.
Proof.
  intros l less Hless. split; [apply insertionSort_perm|].
  induction l as [|x l IH]; simpl.
  - by intros i ???.
  - by apply insertBy_sorted.
Qed.

(** *** The trace of the tasks *)

Lemma tagged_snd (i : nat) (t : list Event) : (pair i <$> t).*2 = t.
Proof. induction t as [|ev t IH]; [done|]. cbn. f_equal. exact IH. Qed.

Lemma tagged_concat n (tasks : list (list Event)) :
  (concat (imap (λ i t, pair (n + i)%nat <$> t) tasks)).*2 = concat tasks.
Proof.
  revert n. induction tasks as [|t tasks IH]; intros n; [done|].
  rewrite imap_cons. cbn [concat]. rewrite fmap_app, tagged_snd. f_equal.
  rewrite <- (IH (S n)). do 2 f_equal. apply imap_ext. intros i x _. simpl.
  do 2 f_equal. lia.
Qed.

Lemma interleave_perm sched tasks :
  (interleave sched tasks).*2 ≡ₚ concat tasks.
Proof.
  revert tasks. induction sched as [|i sched IH]; intros tasks; simpl.
  { by rewrite (tagged_concat 0). }
  destruct (tasks !! i) as [[|ev rest]|] eqn:Hi; [done| |done].
  simpl. rewrite IH.
  rewrite <- (take_drop_middle tasks i (ev :: rest) Hi) at 2.
  rewrite insert_take_drop by (by eapply lookup_lt_Some).
  rewrite !concat_app. simpl.
  by rewrite <- Permutation_middle.
Qed.

Lemma step_resultsCh st trace :
  (length (resultsCh st) ≤ 1024)%nat →
  resultsCh (foldl step st trace)
  = take 1024 (resultsCh st ++ offers trace.*2).
Proof.
  revert st. induction trace as [|[i ev] trace IH]; intros st Hst; simpl.
  - rewrite app_nil_r. by rewrite take_ge.
  - destruct ev as [|err|loc|err]; simpl.
    + by rewrite IH.
    + by rewrite IH.
    + destruct (Nat.ltb_spec (length (resultsCh st)) 1024) as [Hlt|Hge].
      * rewrite IH by (simpl; rewrite length_app; simpl; lia).
        simpl. by rewrite <- app_assoc.
      * rewrite IH by done. rewrite !take_app_le by lia. done.
    + destruct (groupErr st); by rewrite IH.
Qed.


Lemma step_groupErr st trace :
  returns trace.*2 = [] → groupErr (foldl step st trace) = groupErr st.
Proof.
  revert st. induction trace as [|[i ev] trace IH]; intros st; simpl; [done|].
  destruct ev as [|err|loc|err]; simpl; [| | |done].
  - intros H. by rewrite IH.
  - intros H. by rewrite IH.
  - intros H. rewrite IH by done. by destruct (_ <? _)%nat.
Qed.

Lemma attempts_returns (u : string) failed :
  returns (flat_map (λ err, [Read; Assign (Wrap u err)]) failed) = [].
Proof. by induction failed. Qed.

Lemma attempts_offers (u : string) failed :
  offers (flat_map (λ err, [Read; Assign (Wrap u err)]) failed) = [].
Proof. by induction failed. Qed.

Lemma task_returns w pattern i v :
  (∀ u, http_NewRequest w u = None) → returns (task w pattern i v) = [].
Proof.
  intros Hreq. unfold task.
  destruct (url_Parse w v) as [e|sub]; [done|].
  destruct (negb _); [done|]. rewrite Hreq.
  destruct (noRedir_Do w i) as [failed resp].
  unfold returns. rewrite omap_app.
  fold (returns (flat_map (λ err, [Read; Assign (Wrap (URL_String sub) err)])
                   failed)).
  rewrite attempts_returns.
  simpl. by repeat case_match.
Qed.

Lemma tasks_returns w pattern candidates sched :
  (∀ u, http_NewRequest w u = None) →
  returns (interleave sched (imap (task w pattern) candidates)).*2 = [].
Proof.
  intros Hreq. apply Permutation_nil_r.
  unfold returns. rewrite interleave_perm.
  assert (∀ n, omap (λ ev, match ev with Return err => Some err | _ => None end)
             (concat (imap (λ i, task w pattern (n + i)) candidates)) = [])
    as H.
  { induction candidates as [|v candidates IH]; intros n; simpl; [done|].
    rewrite omap_app. fold (returns (task w pattern (n + 0) v)).
    rewrite task_returns by done. simpl.
    rewrite <- (IH (S n)). do 2 f_equal. apply imap_ext. intros i x _. simpl.
    f_equal. lia. }
  by rewrite <- (H 0%nat).
Qed.

(** *** Appends that do not overlap *)











(** *** The selection *)

Lemma SearchXLSURL_crawled sort w searchURL pattern resp :
  crawls w searchURL resp →
  (∀ u, http_NewRequest w u = None) →
  let trace := interleave (schedule w)
                 (imap (task w pattern) (candidatesOf (tokens resp))) in
  let results := take 1024 (offers trace.*2) in
  SearchXLSURL sort w searchURL pattern =
  if Nat.eqb (length results) 0
  then ("", Some (Wrap2 ErrNotFound
                    (errors_Join
                       (errs (foldl step (mkShared [] [] None (λ _, []))
                                trace)))))
  else (sort results lessBase !!! (length (sort results lessBase) - 1)%nat,
        None).
Proof.
  intros (Hurl & Hreq & Hdo & Hst & Htok) Hnew trace results.
  unfold SearchXLSURL.
  apply String.eqb_neq in Hurl. rewrite Hurl, Hreq, Hdo, Htok.
  destruct (Z.ltb_spec 399 (StatusCode resp)); [lia|].
  fold trace.
  rewrite step_groupErr by (by apply tasks_returns).
  rewrite step_resultsCh by (simpl; lia). done.
Qed.

Lemma offers_qualifying w pattern candidates sched :
  offers (interleave sched (imap (task w pattern) candidates)).*2
  ≡ₚ qualifying w pattern candidates.
Proof. unfold qualifying, offers. by rewrite interleave_perm. Qed.

(** C4, as amended.  When the index page was fetched and read to its
    end, every redirect request could be built, and two or more
    candidates qualify, but no more than the 1024 the result channel
    holds, [SearchXLSURL] returns the location of a qualifying
    candidate whose file name is the largest in the order of byte
    strings. *)
Theorem SearchXLSURL_largest sort w searchURL pattern resp :
  SortsSlice sort →
  crawls w searchURL resp →
  (∀ u, http_NewRequest w u = None) →
  let q := qualifying w pattern (candidatesOf (tokens resp)) in
  (2 ≤ length q ≤ 1024)%nat →
  ∃ u, SearchXLSURL sort w searchURL pattern = (u, None)
       ∧ u ∈ q
       ∧ ∀ v, v ∈ q → String.leb (path_Base v) (path_Base u) = true.
Proof.
  intros Hsort Hcrawl Hnew q Hq.
  rewrite (SearchXLSURL_crawled sort w searchURL pattern resp) by done.
  set (trace := interleave _ _).
  assert (offers trace.*2 ≡ₚ q) as Hperm by apply offers_qualifying.
  rewrite take_ge by (rewrite Hperm; lia).
  destruct (Hsort (offers trace.*2) lessBase lessBase_StrictWeak) as [Hp Hs].
  set (sorted := sort (offers trace.*2) lessBase) in *.
  assert (length sorted = length q) as Hlen by by rewrite Hp, Hperm.
  assert (length (offers trace.*2) = length q) as Hlen' by by rewrite Hperm.
  destruct (Nat.eqb_spec (length (offers trace.*2)) 0) as [?|_]; [lia|].
  destruct (lookup_lt_is_Some_2 sorted (length sorted - 1)) as [u Hu]; [lia|].
  exists u. split_and!.
  - f_equal. by apply list_lookup_total_correct.
  - rewrite <- Hperm, <- Hp. by eapply list_elem_of_lookup_2.
  - intros v Hv. rewrite <- Hperm, <- Hp in Hv.
    apply list_elem_of_lookup in Hv as [i Hi].
    assert (lessBase u v = false) as Hless.
    { eapply (SliceIsSorted_le lessBase sorted i (length sorted - 1));
        eauto using lessBase_StrictWeak.
      apply lookup_lt_Some in Hi. lia. }
    unfold lessBase in Hless. rewrite ltb_leb in Hless.
    by apply negb_false_iff in Hless.
Qed.

Lemma SearchXLSURL_largest_witness :
  ∃ u, SearchXLSURL insertionSort twoLinks DefaultURL DefaultPattern = (u, None)
       ∧ u ∈ ["/letoltes/EHT_20210501.xlsx"; "/letoltes/EHT_20210401.pdf"]
       ∧ ∀ v, v ∈ ["/letoltes/EHT_20210501.xlsx"; "/letoltes/EHT_20210401.pdf"]
              → String.leb (path_Base v) (path_Base u) = true.
Proof.
  apply (SearchXLSURL_largest insertionSort twoLinks DefaultURL DefaultPattern
           (pageOf (tokens (pageOf [OtherToken;
              anchor "https://www.giro.hu/documents/1";
              anchor "https://www.giro.hu/documents/2"])))).
  - apply insertionSort_SortsSlice.
  - split_and!; [discriminate|reflexivity..|vm_compute; discriminate|reflexivity].
  - reflexivity.
  - vm_compute. lia.
Defined.

(** C4 fails as stated: of 1025 qualifying candidates the result
    channel keeps 1024, and the location returned is not the one whose
    file name sorts last. *)
Lemma SearchXLSURL_overflow :
  SearchXLSURL insertionSort crowded DefaultURL DefaultPattern
  = ("/EHT_20001023.pdf", None)
  ∧ "/EHT_20001024.pdf"
    ∈ qualifying crowded DefaultPattern
        (candidatesOf (replicate 1025 (anchor "https://www.giro.hu/documents/1")))
  ∧ String.ltb (path_Base "/EHT_20001023.pdf") (path_Base "/EHT_20001024.pdf")
    = true.
Proof.
  split_and!.
  - vm_compute. reflexivity.
  - apply list_elem_of_lookup. exists 1024%nat. vm_compute. reflexivity.
  - vm_compute. reflexivity.
Qed.




(** * Further properties of the package *)

(** ** [checkAppend] *)

Lemma len_nonneg s : 0 ≤ len s.
Proof. unfold len. lia. Qed.

Lemma accepted_iff rec : accepted rec = true ↔ len (Bankszerv rec) = 8.
Proof.
  unfold accepted. rewrite andb_true_iff, bool_decide_eq_true, Z.eqb_eq.
  split; [tauto|]. intros H. split; [|done]. intros ->. by vm_compute in H.
Qed.

(** X1.  [checkAppend] appends the normalized record, at the end and
    leaving the records before it as they are, exactly when the
    normalized branch code has 8 bytes; otherwise it returns the records
    unchanged.  The comparison with the empty record never decides. *)
Theorem checkAppend_spec records rec :
  (len (Bankszerv (normalize rec)) = 8 →
   checkAppend records rec = records ++ [normalize rec])
  ∧ (len (Bankszerv (normalize rec)) ≠ 8 →
     checkAppend records rec = records).
Proof.
  unfold checkAppend. split; intros H.
  - by rewrite (proj2 (accepted_iff _) H).
  - destruct (accepted (normalize rec)) eqn:Ha; [|done].
    by apply accepted_iff in Ha.
Qed.

Lemma checkAppend_spec_witness :
  checkAppend [elso] (mkHitelezo " 10000003 " "" "Harmadik Bank" "1033"
                        "Budapest, Fo utca 3.")
  = [elso] ++ [normalize (mkHitelezo " 10000003 " "" "Harmadik Bank" "1033"
                            "Budapest, Fo utca 3.")]
  ∧ checkAppend [elso] (mkHitelezo "1000000" "" "Harmadik Bank" "1033"
                          "Budapest, Fo utca 3.")
    = [elso].
Proof.
  split.
  - apply (proj1 (checkAppend_spec [elso] _)). vm_compute. reflexivity.
  - apply (proj2 (checkAppend_spec [elso] _)). vm_compute. discriminate.
Defined.

(** *** The split of the postal code *)

Lemma sliceTo_app d s : sliceTo (String.length d) (d +:+ s) = d.
Proof. induction d as [|c d IH]; simpl; [by destruct s|]. by rewrite IH. Qed.

Lemma sliceFrom_app d s : sliceFrom (String.length d) (d +:+ s) = s.
Proof. induction d as [|c d IH]; simpl; [by destruct s|]. done. Qed.

Lemma length_append d s :
  String.length (d +:+ s) = (String.length d + String.length s)%nat.
Proof. induction d as [|c d IH]; simpl; [done|]. by rewrite IH. Qed.

Lemma append_space d rest : (d +:+ " ") +:+ rest = d +:+ String " " rest.
Proof.
  induction d as [|c d IH]; [reflexivity|].
  change (String c ((d +:+ " ") +:+ rest) = String c (d +:+ String " " rest)).
  by f_equal.
Qed.

Lemma digits_IndexFunc n d : digits n d → IndexFunc d notDigit < 0.
Proof.
  intros [_ Hd]. clear n. induction d as [|c d IH]; simpl; [lia|].
  apply Forall_cons in Hd as [Hc Hd].
  assert (notDigit c = false) as ->
    by (unfold notDigit; unfold isDigit in Hc; by rewrite Hc).
  specialize (IH Hd). destruct (Z.ltb_spec (IndexFunc d notDigit) 0); lia.
Qed.

Lemma digits_IndexByte_space n d s :
  digits n d → IndexByte (d +:+ String " " s) " " = Z.of_nat n.
Proof.
  intros [<- Hd]. induction d as [|c d IH]; simpl; [done|].
  apply Forall_cons in Hd as [Hc Hd]. specialize (IH Hd).
  destruct (Ascii.eqb_spec c " ") as [->|_]; [by vm_compute in Hc|].
  change (d ++ String " " s)%string with (d +:+ String " " s).
  rewrite IH. destruct (Z.ltb_spec (Z.of_nat (String.length d)) 0); lia.
Qed.

(** X2.  The postal-code recovery of [checkAppend].  When the cleaned
    postal code is empty and the cleaned address is four decimal
    digits, one space and a non-empty rest, the normalized record has
    the four digits as postal code and the rest as address.  When the
    cleaned postal code is not empty, nothing is split off: the
    normalized record is the record with its four fields cleaned. *)
Theorem normalize_split rec :
  (∀ d rest,
     cleanField (Irszam rec) = "" →
     cleanField (Cim rec) = d +:+ String " " rest →
     digits 4 d → rest ≠ "" →
     normalize rec
     = mkHitelezo (cleanField (Bankszerv rec)) (BIC rec)
         (cleanField (Nev rec)) d rest)
  ∧ (cleanField (Irszam rec) ≠ "" → normalize rec = cleaned rec).
Proof.
  split.
  - intros d rest HI HC Hd Hrest. rewrite normalize_eq.
    pose proof (digits_IndexByte_space 4 d rest Hd) as Hsp.
    pose proof (digits_IndexFunc 4 d Hd) as Hdig.
    destruct Hd as [Hl Hd].
    assert (sliceTo 4 (d +:+ String " " rest) = d) as Hto
      by (rewrite <- Hl; apply sliceTo_app).
    assert (sliceFrom 5 (d +:+ String " " rest) = rest) as Hfrom.
    { rewrite <- append_space.
      replace 5%nat with (String.length (d +:+ " "))
        by (rewrite length_append, Hl; done).
      apply sliceFrom_app. }
    assert (splits (cleaned rec) = true) as ->.
    { unfold splits, cleaned; cbn [Irszam Cim]. rewrite HI, HC, Hsp, Hto.
      unfold len. rewrite length_append, Hl.
      destruct rest; [done|]. simpl String.length.
      repeat (apply andb_true_intro; split); try done;
        apply Z.ltb_lt; lia. }
    by rewrite HC, Hto, Hfrom.
  - intros HI. rewrite normalize_eq.
    assert (splits (cleaned rec) = false) as ->; [|done].
    unfold splits, cleaned; cbn [Irszam Cim].
    by apply String.eqb_neq in HI as ->.
Qed.

Lemma normalize_split_witness :
  normalize (mkHitelezo "10002003" "" "Magyar Államkincstár" " "
               " 1139 Budapest, Váci út 71.")
  = mkHitelezo "10002003" "" "Magyar Államkincstár" "1139"
      "Budapest, Váci út 71."
  ∧ normalize (mkHitelezo "10002003" "" "Magyar Államkincstár" "1138"
                 "1139 Budapest, Váci út 71.")
    = cleaned (mkHitelezo "10002003" "" "Magyar Államkincstár" "1138"
                 "1139 Budapest, Váci út 71.").
Proof.
  split.
  - apply (proj1 (normalize_split
                    (mkHitelezo "10002003" "" "Magyar Államkincstár" " "
                       " 1139 Budapest, Váci út 71."))
                 "1139" "Budapest, Váci út 71.").
    + vm_compute. reflexivity.
    + vm_compute. reflexivity.
    + split; [reflexivity|]. repeat constructor.
    + discriminate.
  - apply (proj2 (normalize_split _)). vm_compute. discriminate.
Defined.

Lemma cleanField_trimmed p : TrimSpace (cleanField p) = cleanField p.
Proof. unfold cleanField. apply TrimSpace_idem. Qed.

Lemma digits_plain s :
  IndexFunc s notDigit < 0 → Forall plain (String.list_ascii_of_string s).
Proof.
  intros Hs%IndexFunc_none. eapply Forall_impl; [exact Hs|].
  apply notDigit_plain.
Qed.

Lemma BIC_normalize rec : BIC (normalize rec) = BIC rec.
Proof. rewrite normalize_eq. by destruct (splits (cleaned rec)). Qed.

(** X3.  What [checkAppend] makes of the fields before it decides: the
    BIC is the one it was given; the branch code and the name are the
    cleaned ones; branch code, name and postal code have no white space
    at either end, and none of the four fields holds a null byte. *)
Theorem normalize_fields rec :
  BIC (normalize rec) = BIC rec
  ∧ Bankszerv (normalize rec) = cleanField (Bankszerv rec)
  ∧ Nev (normalize rec) = cleanField (Nev rec)
  ∧ Forall (λ f, TrimSpace f = f)
      [Bankszerv (normalize rec); Nev (normalize rec); Irszam (normalize rec)]
  ∧ Forall (λ f, "000"%char ∉ String.list_ascii_of_string f)
      [Bankszerv (normalize rec); Nev (normalize rec); Irszam (normalize rec);
       Cim (normalize rec)].
Proof.
  rewrite normalize_eq.
  destruct (splits (cleaned rec)) eqn:Hs;
    cbn [Bankszerv BIC Nev Irszam Cim cleaned].
  - unfold splits in Hs. rewrite !andb_true_iff in Hs.
    destruct Hs as [_ Hd%Z.ltb_lt]. cbn [Cim cleaned] in Hd.
    split_and!; try done.
    + repeat constructor; try apply cleanField_trimmed.
      by apply TrimSpace_plain, digits_plain.
    + repeat constructor; try apply cleanField_nul_free.
      * intros H0. apply digits_plain in Hd.
        rewrite Forall_forall in Hd. apply Hd in H0.
        unfold plain in H0. vm_compute in H0. by destruct H0.
      * intros H%sliceFrom_bytes. by apply cleanField_nul_free in H.
  - split_and!; try done.
    + repeat constructor; apply cleanField_trimmed.
    + repeat constructor; apply cleanField_nul_free.
Qed.

(** ** The loop that closes [Parse] *)

Lemma cleanup_length hit : (length (cleanup hit) ≤ length hit)%nat.
Proof.
  rewrite (Permutation_length (cleanup_perm hit)). apply length_filter.
Qed.

(** X4.  The loop that closes [Parse] has ended after [len(hit)]
    iterations, whatever the records: more iterations change nothing.
    Run on its own result it removes nothing more, and it never makes
    the sequence longer. *)
Theorem cleanup_stable hit :
  (∀ n, cleanupLoop (length hit + n) hit 0 = cleanup hit)
  ∧ cleanup (cleanup hit) = cleanup hit
  ∧ (length (cleanup hit) ≤ length hit)%nat.
Proof.
  split_and!.
  - intros n. rewrite cleanup_sweep.
    etrans; [apply (cleanupLoop_sweep (length hit + n) [] hit)|].
    simpl. apply sweep_enough. lia.
  - apply cleanup_id, cleanup_complete.
  - apply cleanup_length.
Qed.

(** ** [parseTXT] *)

Lemma foldl_checkAppend_seq (F : nat → Hitelezo) records n k :
  foldl (λ records i, checkAppend records (F i)) records (seq n k)
  = foldl checkAppend records (F <$> seq n k).
Proof.
  revert records n. induction k as [|k IH]; intros records n; simpl; [done|].
  apply IH.
Qed.

(** X5.  [processLines] reads a page column by column: when the
    buffered lines are the branch codes, then the names, then the postal
    codes, then the addresses, as many of each, the records are made of
    the i-th line of each column, in the order of the rows, and each goes
    through [checkAppend]. *)
Theorem processLines_columns records codes names zips addrs :
  length names = length codes →
  length zips = length codes →
  length addrs = length codes →
  processLines records (codes ++ names ++ zips ++ addrs)
  = foldl checkAppend records (pageRecords codes names zips addrs).
Proof.
  intros Hn Hz Ha. unfold processLines.
  set (k := length codes) in *.
  assert (length (codes ++ names ++ zips ++ addrs) / 4 = k)%nat as ->.
  { rewrite !length_app, Hn, Hz, Ha. fold k.
    replace (k + (k + (k + k)))%nat with (k * 4)%nat by lia.
    by apply Nat.div_mul. }
  rewrite foldl_checkAppend_seq. f_equal.
  apply list_eq. intros i. unfold pageRecords.
  rewrite list_lookup_fmap, lookup_zip_with, !lookup_zip_with.
  destruct (decide (i < k)%nat) as [Hi|Hi].
  - rewrite lookup_seq_lt by done. simpl.
    destruct (lookup_lt_is_Some_2 codes i) as [c Hc]; [done|].
    destruct (lookup_lt_is_Some_2 names i) as [n Hnm]; [lia|].
    destruct (lookup_lt_is_Some_2 zips i) as [z Hzp]; [lia|].
    destruct (lookup_lt_is_Some_2 addrs i) as [a Had]; [lia|].
    rewrite Hc, Hnm, Hzp, Had. simpl. f_equal.
    rewrite (list_lookup_total_correct _ i c)
      by (by rewrite lookup_app_l).
    rewrite (list_lookup_total_correct _ (k + 0 + i) n).
    2:{ rewrite lookup_app_r by (unfold k; lia).
        replace (k + 0 + i - length codes)%nat with i by (unfold k; lia).
        by rewrite lookup_app_l by lia. }
    rewrite (list_lookup_total_correct _ (k + (k + 0) + i) z).
    2:{ rewrite lookup_app_r by (unfold k; lia).
        rewrite lookup_app_r by (unfold k; lia).
        replace (k + (k + 0) + i - length codes - length names)%nat
          with i by (unfold k; lia).
        by rewrite lookup_app_l by lia. }
    rewrite (list_lookup_total_correct _ (k + (k + (k + 0)) + i) a).
    2:{ rewrite lookup_app_r by (unfold k; lia).
        rewrite lookup_app_r by (unfold k; lia).
        rewrite lookup_app_r by (unfold k; lia).
        replace (k + (k + (k + 0)) + i - length codes - length names
                 - length zips)%nat with i by (unfold k; lia).
        done. }
    done.
  - rewrite lookup_seq_ge by lia. simpl.
    by rewrite (lookup_ge_None_2 codes) by (unfold k; lia).
Qed.

Lemma processLines_columns_witness :
  processLines [] (["10000001"; "10000003"] ++ ["Elso Bank"; "Harmadik Bank"]
                   ++ ["1011"; "1033"]
                   ++ ["Budapest, Fo utca 1."; "Budapest, Fo utca 3."])
  = foldl checkAppend [] [elso; harmadik].
Proof.
  apply (processLines_columns [] ["10000001"; "10000003"]
           ["Elso Bank"; "Harmadik Bank"] ["1011"; "1033"]
           ["Budapest, Fo utca 1."; "Budapest, Fo utca 3."]); reflexivity.
Defined.

Lemma checkAppend_length records rec :
  (length (checkAppend records rec) ≤ S (length records))%nat.
Proof.
  unfold checkAppend. destruct (accepted _); [|lia].
  rewrite length_app. simpl. lia.
Qed.

Lemma foldl_checkAppend_length records recs :
  (length (foldl checkAppend records recs) ≤ length records + length recs)%nat.
Proof.
  revert records. induction recs as [|rec recs IH]; intros records; simpl;
    [lia|].
  etrans; [apply IH|]. pose proof (checkAppend_length records rec). lia.
Qed.

Lemma processLines_length records lines :
  (length (processLines records lines)
   ≤ length records + length lines / 4)%nat.
Proof.
  unfold processLines. rewrite foldl_checkAppend_seq.
  etrans; [apply foldl_checkAppend_length|].
  by rewrite length_fmap, length_seq.
Qed.

Lemma div4_add a b : (a / 4 + b / 4 ≤ (a + b) / 4)%nat.
Proof.
  pose proof (Nat.div_mod_eq a 4). pose proof (Nat.div_mod_eq b 4).
  apply Nat.div_le_lower_bound; lia.
Qed.

Lemma txtLoop_length toks records lines numberSeen :
  (length (txtLoop toks records lines numberSeen)
   ≤ length records + (length lines + length toks) / 4)%nat.
Proof.
  revert records lines numberSeen.
  induction toks as [|line toks IH]; intros records lines numberSeen;
    cbn [txtLoop length].
  - rewrite Nat.add_0_r. apply processLines_length.
  - assert (∀ ns, length (txtLoop toks records lines ns)
                  ≤ length records + (length lines + S (length toks)) / 4)%nat
      as Hskip.
    { intros ns. etrans; [apply IH|]. apply Nat.add_le_mono_l.
      apply Nat.Div0.div_le_mono. lia. }
    assert (∀ ns, length (txtLoop toks records (lines ++ [TrimSpace line]) ns)
                  ≤ length records + (length lines + S (length toks)) / 4)%nat
      as Hkeep.
    { intros ns. etrans; [apply IH|]. rewrite length_app. cbn [length].
      apply Nat.add_le_mono_l, Nat.Div0.div_le_mono. lia. }
    destruct line as [|c rest]; [apply Hskip|].
    destruct (negb (numberSeen || isDigit c)); [apply Hskip|].
    destruct (Contains _ _ || HasSuffix _ _); [apply Hskip|].
    destruct (Ascii.eqb c "012"); [|apply Hkeep].
    pose proof (processLines_length records lines) as Hp.
    destruct (len rest =? 0).
    + etrans; [apply processLines_length|]. cbn [length].
      change (0 / 4)%nat with 0%nat.
      pose proof (div4_add (length lines) (S (length toks))). lia.
    + etrans; [apply IH|]. cbn [length app].
      pose proof (div4_add (length lines) (S (length toks))).
      change (1 + length toks)%nat with (S (length toks)). lia.
Qed.

(** X6.  [parseTXT] returns no error, and at most one record for every
    four lines of the text: the lines of a page beyond a multiple of
    four give no record, and a text of fewer than four lines gives
    none. *)
Theorem parseTXT_length r :
  (parseTXT r).2 = None
  ∧ (length (parseTXT r).1 ≤ length (ScanLines r) / 4)%nat.
Proof.
  split; [done|]. unfold parseTXT. simpl.
  apply (txtLoop_length (ScanLines r) [] [] false).
Qed.

(** X7.  [parseTXT] does not look at the lines before the first line
    that starts with a decimal digit: they change neither the records
    nor the lines buffered. *)
Theorem txtLoop_preamble pre toks records lines :
  Forall (λ line, startsWithDigit line = false) pre →
  txtLoop (pre ++ toks) records lines false
  = txtLoop toks records lines false.
Proof.
  induction 1 as [|line pre Hline _ IH]; [done|]. simpl.
  destruct line as [|c rest]; [done|]. simpl in Hline. by rewrite Hline.
Qed.

Lemma txtLoop_preamble_witness :
  txtLoop (["GIRO"; ""; "Bankszerv"] ++ ["10000001"; "Elso Bank"; "1011";
                                          "Budapest, Fo utca 1."])
    [] [] false
  = txtLoop ["10000001"; "Elso Bank"; "1011"; "Budapest, Fo utca 1."]
      [] [] false.
Proof.
  apply (txtLoop_preamble ["GIRO"; ""; "Bankszerv"]). repeat constructor.
Defined.

Lemma txtLoop_break pre post records lines :
  txtLoop (pre ++ formFeed :: post) records lines true
  = txtLoop (pre ++ [formFeed]) records lines true.
Proof.
  revert records lines.
  induction pre as [|line pre IH]; intros records lines; [done|].
  simpl. destruct line as [|c rest]; [done|]. simpl.
  repeat case_match; auto.
Qed.

(** X8.  Once the table has begun, [parseTXT] stops at the first line
    that holds a form feed and nothing else: the lines after it are not
    read. *)
Theorem txtLoop_stops pre post records lines :
  Exists (λ line, startsWithDigit line = true) pre →
  txtLoop (pre ++ formFeed :: post) records lines false
  = txtLoop (pre ++ [formFeed]) records lines false.
Proof.
  intros H. revert records lines.
  induction pre as [|line pre IH]; intros records lines;
    [by apply Exists_nil in H|].
  simpl. destruct line as [|c rest].
  - apply IH. by apply Exists_cons in H as [H|H].
  - destruct (isDigit c) eqn:Hc; simpl.
    + repeat case_match; auto using txtLoop_break.
    + apply IH. apply Exists_cons in H as [H|H]; [|done].
      simpl in H. congruence.
Qed.

Lemma txtLoop_stops_witness :
  txtLoop (["10000001"; "Elso Bank"; "1011"; "Budapest, Fo utca 1."]
           ++ formFeed :: ["10000003"; "Harmadik Bank"; "1033";
                           "Budapest, Fo utca 3."])
    [] [] false
  = txtLoop (["10000001"; "Elso Bank"; "1011"; "Budapest, Fo utca 1."]
             ++ [formFeed]) [] [] false.
Proof.
  apply txtLoop_stops. apply Exists_cons_hd. reflexivity.
Defined.

(** ** [parsePDFTabula], [parsePDFPdfToText] and [ParsePDF] *)

Lemma parsePDFTabula_run run :
  tabula_setup run = None →
  Forall (λ row, 4 ≤ length row)%nat (tabula_rows run) →
  parsePDFTabula run
  = Ret (map tabulaRecord (tabula_rows run),
         match tabula_stop run with
         | Some err => Some (Wrap "read csv" err)
         | None => tabula_wait run
         end).
Proof.
  intros Hs Hrows. unfold parsePDFTabula. rewrite Hs.
  destruct (tabulaLoop_safe _ [] Hrows) as [hit Hhit]. rewrite Hhit.
  apply tabulaLoop_order in Hhit as ->. simpl.
  by destruct (tabula_stop run).
Qed.

(** X9.  [parsePDFTabula] makes one record of every CSV record it
    reads, in order, with the first four fields as they are: nothing is
    trimmed and nothing is checked.  They are returned with the CSV
    reader's error, wrapped, when it stops on one, and with the exit
    status of the program otherwise. *)
Theorem parsePDFTabula_rows run :
  tabula_setup run = None →
  Forall (λ row, 4 ≤ length row)%nat (tabula_rows run) →
  parsePDFTabula run
  = Ret (map tabulaRecord (tabula_rows run),
         match tabula_stop run with
         | Some err => Some (Wrap "read csv" err)
         | None => tabula_wait run
         end).
Proof. apply parsePDFTabula_run. Qed.

Lemma parsePDFTabula_rows_witness :
  parsePDFTabula
    (tabulaPrints [["Bankszerv"; "Nev"; "Irszam"; "Cim"; "VIBER"];
                   [" 10000001"; "Elso Bank"; ""; ""; "x"]])
  = Ret ([mkHitelezo "Bankszerv" "" "Nev" "Irszam" "Cim";
          mkHitelezo " 10000001" "" "Elso Bank" "" ""], None)
  ∧ parsePDFTabula
      (tabulaPrints [header; [" 10000001"; "Elso Bank"; ""; ""; "x"]])
    = Ret ([mkHitelezo "Bankszerv" "" "Nev" "Irszam" "Cim"],
           Some (Wrap "read csv"
                   (Wrap "record on line 2"
                      (errorString "wrong number of fields")))).
Proof.
  split.
  - apply (parsePDFTabula_rows
             (tabulaPrints [["Bankszerv"; "Nev"; "Irszam"; "Cim"; "VIBER"];
                            [" 10000001"; "Elso Bank"; ""; ""; "x"]])).
    + reflexivity.
    + repeat constructor.
  - apply (parsePDFTabula_rows
             (tabulaPrints [header; [" 10000001"; "Elso Bank"; ""; ""; "x"]])).
    + reflexivity.
    + repeat constructor.
Defined.

(** X10.  [ParsePDF] returns the records of the table extraction, as
    they are and without running the text extraction, when that run
    ends without any error; when the run fails in any way, the records
    it has read are dropped and the result is the one of
    [parsePDFPdfToText]. *)
Theorem ParsePDF_fallback env r :
  Forall (λ row, 4 ≤ length row)%nat (tabula_rows (tabula env r)) →
  (tabula_setup (tabula env r) = None →
   tabula_stop (tabula env r) = None →
   tabula_wait (tabula env r) = None →
   ParsePDF env r = Ret (map tabulaRecord (tabula_rows (tabula env r)), None))
  ∧ (tabulaFailed (tabula env r) →
     ParsePDF env r = Ret (parsePDFPdfToText (pdftotext env r))).
Proof.
  intros Hrows. unfold ParsePDF. split.
  - intros Hs Hstop Hwait. rewrite parsePDFTabula_run by done.
    by rewrite Hstop, Hwait.
  - intros Hfail. destruct (tabula_setup (tabula env r)) as [e|] eqn:Hs.
    + unfold parsePDFTabula. by rewrite Hs.
    + rewrite parsePDFTabula_run by done. simpl.
      destruct (tabula_stop (tabula env r)) as [e|] eqn:Hstop; [done|].
      destruct (tabula_wait (tabula env r)) as [e|] eqn:Hwait; [done|].
      by destruct Hfail as [?|[?|?]].
Qed.

Lemma ParsePDF_fallback_witness :
  ParsePDF (envTabula [header]) "%PDF-1.4"
  = Ret ([mkHitelezo "Bankszerv" "" "Nev" "Irszam" "Cim"], None)
  ∧ ParsePDF (envText (unlines ["10000001"; "Elso Bank"; "1011";
                                  "Budapest, Fo utca 1."])) "%PDF-1.4"
    = Ret ([elso], None).
Proof.
  split.
  - apply (proj1 (ParsePDF_fallback (envTabula [header]) "%PDF-1.4"
                    ltac:(repeat constructor))); reflexivity.
  - apply (proj2 (ParsePDF_fallback
                    (envText (unlines ["10000001"; "Elso Bank"; "1011";
                                       "Budapest, Fo utca 1."])) "%PDF-1.4"
                    ltac:(repeat constructor))).
    left. discriminate.
Defined.

(** X11.  [parsePDFPdfToText] returns no record when the program cannot
    be started.  Once it runs, the records are those [parseTXT] makes of
    its output, whatever its exit status, which is the error returned;
    every one of them has a branch code of 8 bytes. *)
Theorem parsePDFPdfToText_spec run :
  (pdftotext_pipe run ≠ None ∨ pdftotext_start run ≠ None →
   (parsePDFPdfToText run).1 = [] ∧ (parsePDFPdfToText run).2 ≠ None)
  ∧ (pdftotext_pipe run = None → pdftotext_start run = None →
     parsePDFPdfToText run
     = ((parseTXT (pdftotext_stdout run)).1,
        Wrap "[pdftotext - -]" <$> pdftotext_wait run))
  ∧ Forall (λ h, len (Bankszerv h) = 8) (parsePDFPdfToText run).1.
Proof.
  split_and!.
  - unfold parsePDFPdfToText. intros H.
    destruct (pdftotext_pipe run); [done|].
    destruct (pdftotext_start run); [done|]. by destruct H.
  - intros Hp Hs. unfold parsePDFPdfToText, parseTXT. rewrite Hp, Hs.
    by destruct (pdftotext_wait run).
  - eapply Forall_impl; [apply parsePDFPdfToText_coded|].
    by intros h [? _].
Qed.

Lemma parsePDFPdfToText_spec_witness :
  (parsePDFPdfToText
     {| pdftotext_pipe := None;
        pdftotext_start := Some (errorString "executable file not found");
        pdftotext_stdout := ""; pdftotext_wait := None |}).1 = []
  ∧ parsePDFPdfToText
      {| pdftotext_pipe := None; pdftotext_start := None;
         pdftotext_stdout := unlines ["10000001"; "Elso Bank"; "1011";
                                      "Budapest, Fo utca 1."];
         pdftotext_wait := Some (errorString "exit status 1") |}
    = ([elso], Some (Wrap "[pdftotext - -]" (errorString "exit status 1"))).
Proof.
  split.
  - apply (proj1 (parsePDFPdfToText_spec _)). right. discriminate.
  - etrans; [apply (proj1 (proj2 (parsePDFPdfToText_spec _))); reflexivity|].
    vm_compute. reflexivity.
Defined.

(** ** [ParseXLSX] and [ParseXLS] *)

Lemma xlsxLoop_run ctx rows k (b : bool) (rec : Hitelezo) records :
  Forall (λ row, 4 ≤ length row)%nat rows →
  (if b then Irszam rec else BIC rec) = "" →
  (alive ctx k (length rows) →
   xlsxLoop ctx rows k true (layout b) rec records
   = Ret (records ++ flat_map (λ row, checkAppend [] (rowRecord b row)) rows,
          None))
  ∧ (∀ n err, (n < length rows)%nat → alive ctx k n →
       ctx (k + n)%nat = Some err →
       xlsxLoop ctx rows k true (layout b) rec records
       = Ret (records ++ flat_map (λ row, checkAppend [] (rowRecord b row))
                           (take (S n) rows),
              Some err)).
Proof.
  intros Hrows. revert k rec records.
  induction Hrows as [|row rows Hrow _ IH]; intros k rec records Hrec.
  - split; [intros _; simpl; by rewrite app_nil_r|]. intros n e Hn. simpl in Hn. lia.
  - assert (assignFrom 0 (layout b) row rec = Ret (rowRecord b row)) as Ha.
    { destruct (assignFrom_safe (layout b) row rec 0) as [rec' Hr].
      - by destruct b.
      - rewrite Hr. f_equal. by eapply assignFrom_layout. }
    assert ((if b then Irszam (rowRecord b row) else BIC (rowRecord b row)) = "")
      as Hrec' by by destruct b.
    destruct (IH (S k) (rowRecord b row)
                (checkAppend records (rowRecord b row)) Hrec') as [IH1 IH2].
    cbn [xlsxLoop negb]. rewrite Ha. simpl.
    split.
    + intros Hal. pose proof (Hal 0%nat ltac:(simpl; lia)) as H0.
      rewrite Nat.add_0_r in H0. rewrite H0, IH1.
      * by rewrite checkAppend_app, <- app_assoc.
      * intros i Hi. replace (S k + i)%nat with (k + S i)%nat by lia.
        apply Hal. simpl. lia.
    + intros n e Hn Hal He. destruct n as [|n].
      * rewrite Nat.add_0_r in He. rewrite He. simpl.
        by rewrite app_nil_r, (checkAppend_app records).
      * pose proof (Hal 0%nat ltac:(lia)) as H0.
        rewrite Nat.add_0_r in H0. rewrite H0, (IH2 n e).
        -- simpl. by rewrite (checkAppend_app records), <- app_assoc.
        -- simpl in Hn. lia.
        -- intros i Hi. replace (S k + i)%nat with (k + S i)%nat by lia.
           apply Hal. lia.
        -- by replace (S k + n)%nat with (k + S n)%nat by lia.
Qed.

(** X12.  [ParseXLSX] reads the first row as heading only.  Of the rows
    below it makes records in the layout the fourth heading cell names,
    hands each to [checkAppend], and returns those kept, in the order of
    the rows.  When the context is seen done after a row, the records up
    to and including that row's are returned with the context's
    error. *)
Theorem ParseXLSX_rows ctx wb heading data :
  xlsx_Rows wb = None →
  xlsx_rows wb = heading :: data →
  Forall (λ row, 4 ≤ length row)%nat (heading :: data) →
  let b := String.eqb (heading !!! 3%nat) "Address of the branch office" in
  let kept := flat_map (λ row, checkAppend [] (rowRecord b row)) in
  (alive ctx 0 (length data) → ParseXLSX ctx (inr wb) = Ret (kept data, None))
  ∧ (∀ n err, (n < length data)%nat → alive ctx 0 n → ctx n = Some err →
       ParseXLSX ctx (inr wb) = Ret (kept (take (S n) data), Some err)).
Proof.
  intros Hr Hrows Hlen b kept. unfold ParseXLSX. rewrite Hr, Hrows.
  apply Forall_cons in Hlen as [Hh Hd].
  cbn [xlsxLoop negb].
  destruct (index_lt heading 3) as [cell Hc]; [lia|]. rewrite Hc. simpl.
  assert (b = String.eqb cell "Address of the branch office") as Hb
    by (unfold b; by rewrite (index_Ret _ _ _ Hc)).
  assert ((if String.eqb cell "Address of the branch office"
           then [fBankszerv; fBIC; fNev; fCim]
           else [fBankszerv; fNev; fIrszam; fCim]) = layout b) as ->
    by (rewrite Hb; unfold layout; by destruct (String.eqb cell _)).
  destruct (xlsxLoop_run ctx data 0 b zeroHitelezo [] Hd) as [H1 H2];
    [by destruct b|].
  split; [exact H1|]. intros n e Hn Hal He. by apply H2.
Qed.

Lemma ParseXLSX_rows_witness :
  ParseXLSX Background (inr {| xlsx_Rows := None; xlsx_rows := fourRows |})
  = Ret ([elso; nevtelen; harmadik; negyedik], None)
  ∧ ParseXLSX (λ k, if Nat.eqb k 1 then Some (errorString "context canceled")
                    else None)
      (inr {| xlsx_Rows := None; xlsx_rows := fourRows |})
    = Ret ([elso; nevtelen], Some (errorString "context canceled")).
Proof.
  assert (Forall (λ row, 4 ≤ length row)%nat fourRows) as Hlen
    by (repeat constructor).
  split.
  - apply (proj1 (ParseXLSX_rows Background
                    {| xlsx_Rows := None; xlsx_rows := fourRows |}
                    header (tail fourRows) eq_refl eq_refl Hlen)).
    by intros i _.
  - apply (proj2 (ParseXLSX_rows _
                    {| xlsx_Rows := None; xlsx_rows := fourRows |}
                    header (tail fourRows) eq_refl eq_refl Hlen)
                 1%nat (errorString "context canceled")).
    + simpl. lia.
    + intros i Hi. by replace i with 0%nat by lia.
    + reflexivity.
Defined.

Lemma sliceTo_length n s :
  (n ≤ String.length s)%nat → String.length (sliceTo n s) = n.
Proof.
  revert s. induction n as [|n IH]; intros [|c s]; simpl; try done; try lia.
  intros H. f_equal. apply IH. lia.
Qed.

Lemma Irszam_normalize_empty rec :
  cleanField (Irszam rec) = "" →
  Irszam (normalize rec) = "" ∨ digits 4 (Irszam (normalize rec)).
Proof.
  intros HI. rewrite normalize_eq.
  destruct (splits (cleaned rec)) eqn:Hs; cbn [Irszam cleaned]; [|by left].
  right. unfold splits in Hs. rewrite !andb_true_iff in Hs.
  destruct Hs as [[[_ Hlen%Z.ltb_lt] _] Hd%Z.ltb_lt].
  cbn [Cim cleaned] in *. split.
  - apply sliceTo_length. unfold len in Hlen. lia.
  - apply IndexFunc_none in Hd. eapply Forall_impl; [exact Hd|].
    intros c Hc. unfold notDigit in Hc. by apply negb_false_iff in Hc.
Qed.

Lemma elem_of_kept (F : list string → Hitelezo) rows h :
  h ∈ flat_map (λ row, checkAppend [] (F row)) rows →
  ∃ row, row ∈ rows ∧ h = normalize (F row).
Proof.
  intros (row & Hrow & Hh)%list_elem_of_In%in_flat_map.
  exists row. split; [by apply list_elem_of_In|].
  unfold checkAppend in Hh. destruct (accepted _); simpl in Hh; [|done].
  by destruct Hh as [<-|[]].
Qed.

(** X13.  The two layouts of [ParseXLSX].  Under the heading
    ["Address of the branch office"] in the fourth cell the second cell
    of a row is its BIC and no cell is its postal code: the postal code
    of a record is empty or the four digits split off its address.
    Under any other heading no record has a BIC. *)
Theorem ParseXLSX_layouts ctx wb heading data hit err :
  xlsx_Rows wb = None →
  xlsx_rows wb = heading :: data →
  ParseXLSX ctx (inr wb) = Ret (hit, err) →
  if String.eqb (heading !!! 3%nat) "Address of the branch office"
  then Forall (λ h, (Irszam h = "" ∨ digits 4 (Irszam h))
                    ∧ ∃ row, row ∈ data ∧ BIC h = row !!! 1%nat) hit
  else Forall (λ h, BIC h = "") hit.
Proof.
  intros Hr Hrows HP.
  destruct (ParseXLSX_order ctx wb heading data hit err Hr Hrows HP)
    as (n & -> & _).
  destruct (String.eqb (heading !!! 3%nat) _); apply Forall_forall;
    intros h (row & Hrow & ->)%elem_of_kept.
  - split; [by apply Irszam_normalize_empty|].
    exists row. split.
    { apply elem_of_take in Hrow as (i & Hi & _).
      by eapply list_elem_of_lookup_2. }
    by rewrite BIC_normalize.
  - by rewrite BIC_normalize.
Qed.

Lemma ParseXLSX_layouts_witness :
  Forall (λ h, BIC h = "") [elso; nevtelen; harmadik; negyedik]
  ∧ Forall (λ h, (Irszam h = "" ∨ digits 4 (Irszam h))
                 ∧ ∃ row, row ∈ tail bicRows ∧ BIC h = row !!! 1%nat)
      [mkHitelezo "10000001" "ELSOHUHB" "Elso Bank" "1011"
         "Budapest, Fo utca 1."].
Proof.
  split.
  - exact (ParseXLSX_layouts Background
             {| xlsx_Rows := None; xlsx_rows := fourRows |} header
             (tail fourRows) [elso; nevtelen; harmadik; negyedik] None
             eq_refl eq_refl eq_refl).
  - exact (ParseXLSX_layouts Background
             {| xlsx_Rows := None; xlsx_rows := bicRows |}
             ["Branch office code"; "BIC code"; "Name of the branch office";
              "Address of the branch office"]
             (tail bicRows)
             [mkHitelezo "10000001" "ELSOHUHB" "Elso Bank" "1011"
                "Budapest, Fo utca 1."] None
             eq_refl eq_refl eq_refl).
Defined.

Lemma xlsLoop_run ctx sheet ns k (rec : Hitelezo) records :
  BIC rec = "" →
  Forall (λ n, is_Some (rows sheet n)) ns →
  let present := omap (λ n, if (n <? skip)%nat then None else rows sheet n) ns in
  let kept := flat_map (λ row, checkAppend [] (xlsRecord row)) in
  (alive ctx k (length present) →
   xlsLoop ctx sheet ns k [fBankszerv; fNev; fIrszam; fCim] rec records
   = Ret (records ++ kept present, None))
  ∧ (∀ n err, (n < length present)%nat → alive ctx k n →
       ctx (k + n)%nat = Some err →
       xlsLoop ctx sheet ns k [fBankszerv; fNev; fIrszam; fCim] rec records
       = Ret (records ++ kept (take (S n) present), Some err)).
Proof.
  intros Hrec Hns present kept. subst present. revert k rec records Hrec.
  induction Hns as [|m ns [row Hrow] _ IH]; intros k rec records Hrec.
  - split; [intros _; simpl; by rewrite app_nil_r|].
    intros n e Hn. simpl in Hn. lia.
  - cbn [xlsLoop omap list_omap]. unfold Row. rewrite Hrow.
    cbn [mbind Outcome_bind].
    destruct (m <? skip)%nat; [by apply IH|].
    assert (foldl (λ rec '(j, p), store p (Col row (FirstCol row + j)%nat) rec)
              rec (imap pair [fBankszerv; fNev; fIrszam; fCim])
            = xlsRecord row) as ->.
    { destruct rec. simpl in Hrec. subst. reflexivity. }
    destruct (IH (S k) (xlsRecord row)
                (checkAppend records (xlsRecord row)) eq_refl) as [IH1 IH2].
    split.
    + intros Hal. pose proof (Hal 0%nat ltac:(simpl; lia)) as H0.
      rewrite Nat.add_0_r in H0. rewrite H0, IH1.
      * simpl. by rewrite (checkAppend_app records), <- app_assoc.
      * intros i Hi. replace (S k + i)%nat with (k + S i)%nat by lia.
        apply Hal. simpl. lia.
    + intros n e Hn Hal He. destruct n as [|n].
      * rewrite Nat.add_0_r in He. rewrite He. simpl.
        by rewrite app_nil_r, (checkAppend_app records).
      * pose proof (Hal 0%nat ltac:(lia)) as H0.
        rewrite Nat.add_0_r in H0. rewrite H0, (IH2 n e).
        -- simpl. by rewrite (checkAppend_app records), <- app_assoc.
        -- simpl in Hn. lia.
        -- intros i Hi. replace (S k + i)%nat with (k + S i)%nat by lia.
           apply Hal. lia.
        -- by replace (S k + n)%nat with (k + S n)%nat by lia.
Qed.

Lemma xlsLoop_missing ctx sheet ns k dst rec records :
  Exists (λ n, rows sheet n = None) ns →
  alive ctx k (length ns) →
  panics (xlsLoop ctx sheet ns k dst rec records) = true.
Proof.
  intros Hns. revert k rec records.
  induction ns as [|m ns IH]; intros k rec records Hal;
    [by apply Exists_nil in Hns|].
  cbn [xlsLoop]. unfold Row.
  destruct (rows sheet m) as [row|] eqn:Hrow; [|done].
  apply Exists_cons in Hns as [Hm|Hns]; [congruence|].
  cbn [mbind Outcome_bind].
  destruct (m <? skip)%nat.
  - apply IH; [done|]. intros i Hi. apply Hal. simpl. lia.
  - pose proof (Hal 0%nat ltac:(simpl; lia)) as H0.
    rewrite Nat.add_0_r in H0. rewrite H0.
    apply IH; [done|]. intros i Hi.
    replace (S k + i)%nat with (k + S i)%nat by lia. apply Hal. simpl. lia.
Qed.

(** X14.  [ParseXLS], on a workbook the legacy decoder opens, asks the
    sheet for every row with a number below [MaxRow]; the row with the
    number [MaxRow], the last one, is not read.  When the sheet has all
    these rows, row 0 is passed over, and of every other row the four
    cells from the row's first column on are taken as branch code,
    name, postal code and address and handed to [checkAppend]; the
    records kept are returned in the order of the rows, and when the
    context is seen done after a row, the records so far are returned
    with the context's error.  When the sheet lacks one of these rows,
    [ParseXLS] panics on it, unless the context is done before. *)
Theorem ParseXLS_rows ctx env r wb sheet :
  xls_OpenReader env r = inr wb →
  GetSheet0 wb = Some sheet →
  let kept := flat_map (λ row, checkAppend [] (xlsRecord row)) in
  ((∀ n, (n < MaxRow sheet)%nat → is_Some (rows sheet n)) →
   (alive ctx 0 (length (xlsRows sheet)) →
    ParseXLS ctx env r = Ret (kept (xlsRows sheet), None))
   ∧ (∀ n err, (n < length (xlsRows sheet))%nat → alive ctx 0 n →
        ctx n = Some err →
        ParseXLS ctx env r
        = Ret (kept (take (S n) (xlsRows sheet)), Some err)))
  ∧ ((∃ n, (n < MaxRow sheet)%nat ∧ rows sheet n = None) →
     alive ctx 0 (MaxRow sheet) →
     panics (ParseXLS ctx env r) = true).
Proof.
  intros Ho Hs kept. unfold ParseXLS. rewrite Ho, Hs. split.
  - intros Hall.
    assert (Forall (λ n, is_Some (rows sheet n)) (seq 0 (MaxRow sheet)))
      as Hns.
    { apply Forall_forall. intros n Hn%elem_of_seq. apply Hall. lia. }
    destruct (xlsLoop_run ctx sheet (seq 0 (MaxRow sheet)) 0 zeroHitelezo []
                eq_refl Hns) as [H1 H2].
    split.
    + intros Hal. by rewrite H1.
    + intros n e Hn Hal He. by rewrite (H2 n e).
  - intros (n & Hn & Hrow) Hal. apply xlsLoop_missing.
    + apply Exists_exists. exists n. split; [|done].
      apply elem_of_seq. lia.
    + by rewrite length_seq.
Qed.

Lemma ParseXLS_rows_witness :
  ParseXLS Background envLegacy (content sheetStream)
  = Ret ([elso; harmadik], None)
  ∧ panics (ParseXLS Background envGapped (content sheetStream)) = true.
Proof.
  split.
  - etrans.
    + refine (proj1 (proj1 (ParseXLS_rows Background envLegacy
                               (content sheetStream)
                               {| GetSheet0 := Some legacySheet |} legacySheet
                               eq_refl eq_refl) _) _).
      * intros n Hn.
        destruct n as [|[|[|n]]]; [by eexists..|simpl in Hn; lia].
      * by intros i _.
    + vm_compute. reflexivity.
  - apply (proj2 (ParseXLS_rows Background envGapped (content sheetStream)
                    {| GetSheet0 := Some gappedSheet |} gappedSheet
                    eq_refl eq_refl)).
    + exists 2%nat. split; [simpl; lia|reflexivity].
    + by intros i _.
Defined.

(** ** [Parse]: the choice of the spreadsheet decoder *)

(** X15.  How [Parse] chooses between the spreadsheet decoders when
    the stream is no PDF and the modern decoder cannot open it.  An
    error whose text has neither ["not a valid zip"] nor ["unsupported"]
    is returned at once, with no record.  Otherwise the legacy decoder
    is tried: when it opens the workbook, the result is what [ParseXLS]
    makes of it, its records, cleaned up, and its error, or its panic;
    when it cannot open it either, the modern decoder is tried once
    more on the rewound stream, and its error is the result, or the
    error of the rewinding. *)
Theorem Parse_fallback env ctx r sr err :
  route env r = ToSheet sr →
  excelize_OpenReader env sr = inl err →
  (fallsBack (Some err) = false → Parse env ctx r = Ret ([], Some err))
  ∧ (fallsBack (Some err) = true →
     match xls_OpenReader env sr with
     | inr wb =>
         Parse env ctx r
         = ('(hit, err') ← ParseXLS ctx env sr; mret (cleanup hit, err'))
     | inl _ =>
         Parse env ctx r
         = Ret ([], Some (match Seek env with Some e => e | None => err end))
     end).
Proof.
  intros Hroute Hopen. rewrite Parse_route, Hroute. unfold parseSheet.
  unfold ParseXLSX at 1. rewrite Hopen. simpl. split; intros Hf; rewrite Hf.
  - done.
  - destruct (xls_OpenReader env sr) as [e|wb] eqn:Hxls; [|done].
    unfold ParseXLS. rewrite Hxls.
    destruct (Seek env); [done|]. unfold ParseXLSX. by rewrite Hopen.
Qed.

Lemma Parse_fallback_witness :
  Parse (envGarbage (errorString "open /tmp/x: permission denied")) Background
    (Some sheetStream)
  = Ret ([], Some (errorString "open /tmp/x: permission denied"))
  ∧ Parse (envGarbage (errorString "zip: not a valid zip file")) Background
      (Some sheetStream)
    = Ret ([], Some (errorString "zip: not a valid zip file"))
  ∧ Parse envLegacy Background (Some sheetStream)
    = Ret ([elso; harmadik], None).
Proof.
  split_and!.
  - apply (proj1 (Parse_fallback (envGarbage _) Background (Some sheetStream)
                    (content sheetStream) _ eq_refl eq_refl)).
    vm_compute. reflexivity.
  - apply (proj2 (Parse_fallback
                    (envGarbage (errorString "zip: not a valid zip file"))
                    Background (Some sheetStream)
                    (content sheetStream) _ eq_refl eq_refl)).
    vm_compute. reflexivity.
  - etrans.
    + apply (proj2 (Parse_fallback envLegacy Background (Some sheetStream)
                      (content sheetStream) _ eq_refl eq_refl)).
      vm_compute. reflexivity.
    + vm_compute. reflexivity.
Defined.

(** ** [SearchXLSURL]: the candidates and the result *)

(** X16.  The candidates of [SearchXLSURL] are exactly the values of
    the [href] attributes of the start tags [a] whose value has
    ["/documents/"] in it and no space. *)
Theorem candidatesOf_spec toks v :
  v ∈ candidatesOf toks
  ↔ ∃ attrs, StartTagToken "a" attrs ∈ toks
             ∧ ("href", v) ∈ attrs
             ∧ Contains v "/documents/" = true
             ∧ IndexByte v " " < 0.
Proof.
  unfold candidatesOf. rewrite list_elem_of_In, in_flat_map. split.
  - intros (tok & Htok & Hv). destruct tok as [tagName attrs|]; [|done].
    destruct (negb _ && String.eqb tagName "a") eqn:Ha; [|done].
    apply andb_true_iff in Ha as [_ ->%String.eqb_eq].
    exists attrs. split; [by apply list_elem_of_In|].
    unfold hrefs in Hv. apply in_flat_map in Hv as ([k v'] & Hkv & Hv).
    destruct (String.eqb k "href" && Contains v' "/documents/"
              && (IndexByte v' " " <? 0)) eqn:Hc; [|done].
    destruct Hv as [<-|[]].
    rewrite !andb_true_iff in Hc.
    destruct Hc as [[->%String.eqb_eq Hd] Hs%Z.ltb_lt].
    split_and!; [by apply list_elem_of_In|done..].
  - intros (attrs & Htok & Hattr & Hd & Hs).
    exists (StartTagToken "a" attrs). split; [by apply list_elem_of_In|].
    assert (negb (Nat.eqb (length attrs) 0) && String.eqb "a" "a" = true) as ->.
    { destruct attrs; [by apply elem_of_nil in Hattr|done]. }
    unfold hrefs. apply in_flat_map. exists ("href", v).
    split; [by apply list_elem_of_In|].
    rewrite Hd. apply Z.ltb_lt in Hs. rewrite Hs. simpl. by left.
Qed.

Lemma task_offers w pattern i v loc :
  loc ∈ offers (task w pattern i v) → MatchString pattern (path_Base loc) = true.
Proof.
  unfold task. destruct (url_Parse w v) as [e|sub]; [by intros ?%elem_of_nil|].
  destruct (negb _); [by intros ?%elem_of_nil|].
  destruct (http_NewRequest w _); [by intros ?%elem_of_nil|].
  destruct (noRedir_Do w i) as [failed resp].
  unfold offers. rewrite omap_app.
  fold (offers (flat_map (λ err, [Read; Assign (Wrap (URL_String sub) err)])
                  failed)).
  rewrite attempts_offers.
  simpl. destruct resp as [resp|]; [|by intros ?%elem_of_nil].
  destruct (negb _); [by intros ?%elem_of_nil|].
  destruct (String.eqb _ _); [by intros ?%elem_of_nil|].
  destruct (MatchString pattern (path_Base (Location resp))) eqn:Hm;
    [|by intros ?%elem_of_nil].
  simpl. by intros ->%list_elem_of_singleton.
Qed.

Lemma qualifying_match w pattern candidates loc :
  loc ∈ qualifying w pattern candidates →
  MatchString pattern (path_Base loc) = true.
Proof.
  unfold qualifying.
  assert (∀ n, loc ∈ offers (concat (imap (λ i, task w pattern (n + i))
                                       candidates)) →
               MatchString pattern (path_Base loc) = true) as H.
  { induction candidates as [|v candidates IH]; intros n; simpl;
      [by intros ?%elem_of_nil|].
    unfold offers. rewrite omap_app, elem_of_app. intros [Hl|Hl].
    - by eapply task_offers.
    - apply (IH (S n)).
      erewrite imap_ext; [exact Hl|]. intros i x _. simpl. f_equal. lia. }
  apply (H 0%nat).
Qed.

(** X17.  What [SearchXLSURL] returns for an index URL other than the
    direct one: beside an error the URL is empty, and a URL returned
    without error is the location of a qualifying candidate of the
    index page, with a file name that is not empty and matches the
    pattern.  This holds for every order of the steps of the tasks and
    however many candidates qualify. *)
Theorem SearchXLSURL_result sort w searchURL pattern u err :
  SortsSlice sort →
  searchURL ≠ DefaultXLSXURL →
  SearchXLSURL sort w searchURL pattern = (u, err) →
  match err with
  | Some _ => u = ""
  | None =>
      ∃ resp, index_Do w = inr resp
              ∧ u ∈ qualifying w pattern (candidatesOf (tokens resp))
              ∧ MatchString pattern (path_Base u) = true
  end.
Proof.
  intros Hsort Hurl. unfold SearchXLSURL.
  apply String.eqb_neq in Hurl. rewrite Hurl.
  destruct (index_NewRequest w); [by intros [= <- <-]|].
  destruct (index_Do w) as [e|resp]; [by intros [= <- <-]|].
  destruct (399 <? StatusCode resp); [by intros [= <- <-]|].
  destruct (tokenErr resp); [by intros [= <- <-]|].
  set (trace := interleave _ _).
  destruct (groupErr _); [by intros [= <- <-]|].
  rewrite step_resultsCh by (simpl; lia). simpl.
  set (results := take 1024 (offers trace.*2)).
  destruct (Nat.eqb_spec (length results) 0) as [|Hne]; [by intros [= <- <-]|].
  intros [= <- <-].
  destruct (Hsort results lessBase lessBase_StrictWeak) as [Hp _].
  set (sorted := sort results lessBase) in *.
  assert (length sorted = length results) as Hlen by by rewrite Hp.
  destruct (lookup_lt_is_Some_2 sorted (length sorted - 1)) as [u Hu]; [lia|].
  rewrite (list_lookup_total_correct _ _ _ Hu).
  assert (u ∈ qualifying w pattern (candidatesOf (tokens resp))) as Hq.
  { rewrite <- (offers_qualifying w pattern _ (schedule w)). fold trace.
    apply list_elem_of_lookup_2 in Hu. rewrite Hp in Hu.
    apply elem_of_take in Hu as (i & Hi & _).
    by eapply list_elem_of_lookup_2. }
  exists resp. split_and!; [done|done|by eapply qualifying_match].
Qed.

Lemma SearchXLSURL_result_witness :
  ∃ resp, index_Do twoLinks = inr resp
          ∧ "/letoltes/EHT_20210501.xlsx"
            ∈ qualifying twoLinks DefaultPattern (candidatesOf (tokens resp))
          ∧ MatchString DefaultPattern (path_Base "/letoltes/EHT_20210501.xlsx")
            = true.
Proof.
  apply (SearchXLSURL_result insertionSort twoLinks DefaultURL DefaultPattern
           "/letoltes/EHT_20210501.xlsx" None).
  - apply insertionSort_SortsSlice.
  - discriminate.
  - vm_compute. reflexivity.
Defined.

Lemma SearchXLSURL_selects sort w searchURL pattern resp :
  SortsSlice sort →
  crawls w searchURL resp →
  (∀ u, http_NewRequest w u = None) →
  let q := qualifying w pattern (candidatesOf (tokens resp)) in
  (1 ≤ length q ≤ 1024)%nat →
  ∃ u, SearchXLSURL sort w searchURL pattern = (u, None)
       ∧ u ∈ q
       ∧ ∀ v, v ∈ q → String.leb (path_Base v) (path_Base u) = true.
Proof.
  intros Hsort Hcrawl Hnew q Hq.
  rewrite (SearchXLSURL_crawled sort w searchURL pattern resp) by done.
  set (trace := interleave _ _).
  assert (offers trace.*2 ≡ₚ q) as Hperm by apply offers_qualifying.
  rewrite take_ge by (rewrite Hperm; lia).
  destruct (Hsort (offers trace.*2) lessBase lessBase_StrictWeak) as [Hp Hs].
  set (sorted := sort (offers trace.*2) lessBase) in *.
  assert (length sorted = length q) as Hlen by by rewrite Hp, Hperm.
  assert (length (offers trace.*2) = length q) as Hlen' by by rewrite Hperm.
  destruct (Nat.eqb_spec (length (offers trace.*2)) 0) as [?|_]; [lia|].
  destruct (lookup_lt_is_Some_2 sorted (length sorted - 1)) as [u Hu]; [lia|].
  exists u. split_and!.
  - f_equal. by apply list_lookup_total_correct.
  - rewrite <- Hperm, <- Hp. by eapply list_elem_of_lookup_2.
  - intros v Hv. rewrite <- Hperm, <- Hp in Hv.
    apply list_elem_of_lookup in Hv as [i Hi].
    assert (lessBase u v = false) as Hless.
    { eapply (SliceIsSorted_le lessBase sorted i (length sorted - 1));
        eauto using lessBase_StrictWeak.
      apply lookup_lt_Some in Hi. lia. }
    unfold lessBase in Hless. rewrite ltb_leb in Hless.
    by apply negb_false_iff in Hless.
Qed.

Lemma leb_antisym_eq (a b : string) :
  String.leb a b = true → String.leb b a = true → a = b.
Proof.
  unfold String.leb. intros Hab Hba.
  destruct (String.compare a b) eqn:Hc; [by apply String.compare_eq_iff| |done].
  rewrite String.compare_antisym, Hc in Hba. done.
Qed.

(** X18.  The file name of the result does not depend on the order in
    which the tasks run, nor on the sorting function: with one to 1024
    qualifying candidates, two runs against the same network that
    differ in the schedule of the tasks and in the implementation of
    [sort.Slice] both return a URL, and the two URLs have the same file
    name. *)
Theorem SearchXLSURL_schedule_independent sort1 sort2 w sched searchURL pattern
    resp :
  SortsSlice sort1 → SortsSlice sort2 →
  crawls w searchURL resp →
  (∀ u, http_NewRequest w u = None) →
  (1 ≤ length (qualifying w pattern (candidatesOf (tokens resp))) ≤ 1024)%nat →
  ∃ u1 u2,
    SearchXLSURL sort1 w searchURL pattern = (u1, None)
    ∧ SearchXLSURL sort2 (reschedule w sched) searchURL pattern = (u2, None)
    ∧ path_Base u1 = path_Base u2.
Proof.
  intros Hs1 Hs2 Hcrawl Hnew Hq.
  destruct (SearchXLSURL_selects sort1 w searchURL pattern resp)
    as (u1 & H1 & Hin1 & Hmax1); [done..|].
  destruct (SearchXLSURL_selects sort2 (reschedule w sched) searchURL pattern
              resp) as (u2 & H2 & Hin2 & Hmax2); [done..|].
  exists u1, u2. split_and!; [done..|].
  apply leb_antisym_eq; [by apply Hmax2|by apply Hmax1].
Qed.

Lemma SearchXLSURL_schedule_independent_witness :
  ∃ u1 u2,
    SearchXLSURL insertionSort twoLinks DefaultURL DefaultPattern = (u1, None)
    ∧ SearchXLSURL insertionSort (reschedule twoLinks [1; 0; 1]%nat)
        DefaultURL DefaultPattern
      = (u2, None)
    ∧ path_Base u1 = path_Base u2.
Proof.
  apply (SearchXLSURL_schedule_independent insertionSort insertionSort twoLinks
           [1; 0; 1]%nat DefaultURL DefaultPattern
           (pageOf [OtherToken;
              anchor "https://www.giro.hu/documents/1";
              anchor "https://www.giro.hu/documents/2"])).
  - apply insertionSort_SortsSlice.
  - apply insertionSort_SortsSlice.
  - split_and!; [discriminate|reflexivity..|vm_compute; discriminate|reflexivity].
  - reflexivity.
  - vm_compute. lia.
Defined.

(** ** The language of [DefaultPattern] *)

(** *** The matcher decides the language of a regular expression *)

Lemma append_nil_r (s : string) : s +:+ "" = s.
Proof. induction s as [|c s IH]; [done|]. change (String c (s +:+ "") = String c s). by rewrite IH. Qed.

Lemma append_assoc (s1 s2 s3 : string) : (s1 +:+ s2) +:+ s3 = s1 +:+ (s2 +:+ s3).
Proof.
  induction s1 as [|c s1 IH]; [done|].
  change (String c ((s1 +:+ s2) +:+ s3) = String c (s1 +:+ (s2 +:+ s3))).
  by rewrite IH.
Qed.

Lemma append_cons c (s1 s2 : string) : String c s1 +:+ s2 = String c (s1 +:+ s2).
Proof. done. Qed.

Lemma append_empty (s1 s2 : string) : s1 +:+ s2 = "" → s1 = "" ∧ s2 = "".
Proof. destruct s1; [done|]. rewrite append_cons. done. Qed.

Lemma matchWhole_matchTo r s bol : matchWhole r s bol = matchTo r s bol true.
Proof. revert r bol. induction s as [|c s IH]; intros r bol; simpl; [done|]. apply IH. Qed.

Lemma matchTo_Fail s bol eol : matchTo Fail s bol eol = false.
Proof. revert bol. induction s as [|c s IH]; intros bol; simpl; [done|]. apply IH. Qed.

Lemma alt'_cases r1 r2 :
  (r1 = Fail ∧ alt' r1 r2 = r2) ∨ (r2 = Fail ∧ alt' r1 r2 = r1)
  ∨ alt' r1 r2 = Alt r1 r2.
Proof. destruct r1, r2; simpl; auto. Qed.

Lemma matchTo_Alt r1 r2 s bol eol :
  matchTo (Alt r1 r2) s bol eol = matchTo r1 s bol eol || matchTo r2 s bol eol.
Proof.
  revert r1 r2 bol. induction s as [|c s IH]; intros r1 r2 bol; [done|].
  cbn [matchTo deriv].
  destruct (alt'_cases (deriv c bol r1) (deriv c bol r2))
    as [[-> ->]|[[-> ->]| ->]].
  - by rewrite matchTo_Fail.
  - by rewrite matchTo_Fail, orb_false_r.
  - apply IH.
Qed.

Lemma matchTo_alt' r1 r2 s bol eol :
  matchTo (alt' r1 r2) s bol eol = matchTo r1 s bol eol || matchTo r2 s bol eol.
Proof.
  destruct (alt'_cases r1 r2) as [[-> ->]|[[-> ->]| ->]].
  - by rewrite matchTo_Fail.
  - by rewrite matchTo_Fail, orb_false_r.
  - apply matchTo_Alt.
Qed.

Lemma seq'_Fail_r r : seq' r Fail = Fail.
Proof. by destruct r. Qed.

Lemma matchTo_Seq_Fail_l r s bol eol : matchTo (Seq Fail r) s bol eol = false.
Proof. destruct s as [|c s]; [done|]. simpl. apply matchTo_Fail. Qed.

Lemma matchTo_Seq_Fail_r r s bol eol : matchTo (Seq r Fail) s bol eol = false.
Proof.
  revert r bol. induction s as [|c s IH]; intros r bol.
  - simpl. apply andb_false_r.
  - cbn [matchTo deriv]. rewrite seq'_Fail_r.
    destruct (nullable bol false r); simpl; apply matchTo_Fail.
Qed.

Lemma matchTo_Seq_Eps r s bol eol :
  matchTo (Seq Eps r) s bol eol = matchTo r s bol eol.
Proof. by destruct s. Qed.

Lemma seq'_cases r1 r2 :
  (r1 = Fail ∧ seq' r1 r2 = Fail) ∨ (r2 = Fail ∧ seq' r1 r2 = Fail)
  ∨ (r1 = Eps ∧ seq' r1 r2 = r2) ∨ seq' r1 r2 = Seq r1 r2.
Proof. destruct r1, r2; simpl; auto. Qed.

Lemma matchTo_seq' r1 r2 s bol eol :
  matchTo (seq' r1 r2) s bol eol = matchTo (Seq r1 r2) s bol eol.
Proof.
  destruct (seq'_cases r1 r2) as [[-> ->]|[[-> ->]|[[-> ->]| ->]]].
  - by rewrite matchTo_Fail, matchTo_Seq_Fail_l.
  - by rewrite matchTo_Fail, matchTo_Seq_Fail_r.
  - by rewrite matchTo_Seq_Eps.
  - done.
Qed.

Lemma matchTo_Seq_app r1 r2 s1 s2 bol eol :
  matchTo r1 s1 bol (eol && isEmpty s2) = true →
  matchTo r2 s2 (bol && isEmpty s1) eol = true →
  matchTo (Seq r1 r2) (s1 +:+ s2) bol eol = true.
Proof.
  revert r1 bol. induction s1 as [|c s1 IH]; intros r1 bol H1 H2.
  - change ("" +:+ s2) with s2. simpl in H1, H2. rewrite andb_true_r in H2.
    destruct s2 as [|c s2].
    + simpl in *. rewrite andb_true_r in H1. by rewrite H1, H2.
    + simpl in H1. rewrite andb_false_r in H1.
      cbn [matchTo deriv]. rewrite H1, matchTo_alt'.
      simpl in H2. rewrite H2. apply orb_true_r.
  - rewrite append_cons. cbn [matchTo deriv].
    rewrite matchTo_alt', matchTo_seq'.
    rewrite IH; [done|exact H1|].
    simpl in H2. by rewrite andb_false_r in H2.
Qed.

Lemma matchTo_complete r s bol eol :
  Matches r bol eol s → matchTo r s bol eol = true.
Proof.
  induction 1 as [| | | | lo hi c bol eol Hc|c bol eol Hc| |
                  r1 r2 s1 s2 bol eol _ IH1 _ IH2| r1 r2 s bol eol _ IH|
                  r1 r2 s bol eol _ IH| |r c s1 s2 bol eol _ IH1 _ IH2];
    try done.
  - simpl. by rewrite Ascii.eqb_refl.
  - simpl. destruct Hc as [?%N.leb_le ?%N.leb_le].
    by rewrite (proj2 (andb_true_iff _ _) (conj H H0)).
  - simpl. apply Ascii.eqb_neq in Hc. by rewrite Hc.
  - by apply matchTo_Seq_app.
  - by rewrite matchTo_Alt, IH.
  - by rewrite matchTo_Alt, IH, orb_true_r.
  - rewrite append_cons. cbn [matchTo deriv]. rewrite matchTo_seq'.
    apply matchTo_Seq_app; [exact IH1|exact IH2].
Qed.

Lemma Matches_Seq r1 r2 s1 s2 s bol eol e1 b2 :
  s = s1 +:+ s2 → e1 = eol && isEmpty s2 → b2 = bol && isEmpty s1 →
  Matches r1 bol e1 s1 → Matches r2 b2 eol s2 → Matches (Seq r1 r2) bol eol s.
Proof. intros -> -> ->. apply M_Seq. Qed.

Lemma nullable_sound r bol eol : nullable bol eol r = true → Matches r bol eol "".
Proof.
  induction r as [| | | | | |r1 IH1 r2 IH2|r1 IH1 r2 IH2|r IH| |]; simpl;
    try done.
  - intros _. constructor.
  - intros [H1 H2]%andb_true_iff.
    apply (Matches_Seq r1 r2 "" "" "" bol eol eol bol); auto.
    + by rewrite andb_true_r.
    + by rewrite andb_true_r.
  - intros [H|H]%orb_true_iff; [apply M_AltL|apply M_AltR]; auto.
  - intros _. constructor.
  - intros ->. constructor.
  - intros ->. constructor.
Qed.

Lemma Matches_alt' r1 r2 s bol eol :
  Matches (alt' r1 r2) bol eol s → Matches (Alt r1 r2) bol eol s.
Proof.
  destruct (alt'_cases r1 r2) as [[-> ->]|[[-> ->]| ->]]; [| |done].
  - apply M_AltR.
  - apply M_AltL.
Qed.

Lemma Matches_seq' r1 r2 s bol eol :
  Matches (seq' r1 r2) bol eol s → Matches (Seq r1 r2) bol eol s.
Proof.
  destruct (seq'_cases r1 r2) as [[-> ->]|[[-> ->]|[[-> ->]| ->]]];
    [by inversion 1|by inversion 1| |done].
  intros H. apply (Matches_Seq Eps r2 "" s s bol eol (eol && isEmpty s) bol);
    auto; [by rewrite andb_true_r|constructor].
Qed.

Lemma deriv_sound r c s bol eol :
  Matches (deriv c bol r) false eol s → Matches r bol eol (String c s).
Proof.
  revert s eol.
  induction r as [| |d|lo hi| | |r1 IH1 r2 IH2|r1 IH1 r2 IH2|r IH| |];
    intros s eol; simpl; try (by inversion 1).
  - destruct (Ascii.eqb_spec c d) as [->|]; inversion 1. constructor.
  - destruct (_ && _) eqn:Hc; inversion 1.
    apply andb_true_iff in Hc as [?%N.leb_le ?%N.leb_le]. by constructor.
  - destruct (Ascii.eqb_spec c "010") as [->|]; inversion 1. by constructor.
  - inversion 1. constructor.
  - intros H%Matches_alt'. inversion H as [| | | | | | | |? ? ? ? ? H'|? ? ? ? ? H'| |]; subst.
    + apply Matches_seq' in H'.
      inversion H' as [| | | | | | |? ? s1 s2 ? ? Hd H2| | | |]; subst.
      apply (Matches_Seq r1 r2 (String c s1) s2 _ bol eol (eol && isEmpty s2)
               false); auto.
      simpl. by rewrite andb_false_r.
    + destruct (nullable bol false r1) eqn:Hn; [|by inversion H'].
      apply (Matches_Seq r1 r2 "" (String c s) _ bol eol false bol); auto.
      * by rewrite andb_false_r.
      * by rewrite andb_true_r.
      * by apply nullable_sound.
  - intros H%Matches_alt'. inversion H; subst; [apply M_AltL|apply M_AltR]; auto.
  - intros H%Matches_seq'.
    inversion H as [| | | | | | |? ? s1 s2 ? ? Hd H2| | | |]; subst.
    rewrite <- append_cons. apply M_StarS; auto.
Qed.

Lemma matchTo_sound r s bol eol :
  matchTo r s bol eol = true → Matches r bol eol s.
Proof.
  revert r bol. induction s as [|c s IH]; intros r bol; simpl.
  - apply nullable_sound.
  - intros H. by apply deriv_sound, IH.
Qed.

Lemma matchTo_spec r s bol eol :
  matchTo r s bol eol = true ↔ Matches r bol eol s.
Proof. split; [apply matchTo_sound|apply matchTo_complete]. Qed.

(** *** The languages of the parts of [DefaultPattern] *)

Lemma Matches_Seq_inv r1 r2 s bol eol :
  Matches (Seq r1 r2) bol eol s
  ↔ ∃ s1 s2, s = s1 +:+ s2
             ∧ Matches r1 bol (eol && isEmpty s2) s1
             ∧ Matches r2 (bol && isEmpty s1) eol s2.
Proof.
  split.
  - inversion 1; subst. eauto.
  - intros (s1 & s2 & -> & H1 & H2). by constructor.
Qed.

Lemma Matches_Alt_inv r1 r2 s bol eol :
  Matches (Alt r1 r2) bol eol s ↔ Matches r1 bol eol s ∨ Matches r2 bol eol s.
Proof.
  split.
  - inversion 1; subst; auto.
  - intros [H|H]; [by apply M_AltL|by apply M_AltR].
Qed.

Lemma Matches_Eps_inv s bol eol : Matches Eps bol eol s ↔ s = "".
Proof. split; [by inversion 1|intros ->; constructor]. Qed.

Lemma Matches_Chr_inv c s bol eol : Matches (Chr c) bol eol s ↔ s = String c "".
Proof. split; [by inversion 1|intros ->; constructor]. Qed.

Lemma Matches_Bol_inv s bol eol : Matches Bol bol eol s ↔ s = "" ∧ bol = true.
Proof. split; [by inversion 1|intros [-> ->]; constructor]. Qed.

Lemma Matches_Eol_inv s bol eol : Matches Eol bol eol s ↔ s = "" ∧ eol = true.
Proof. split; [by inversion 1|intros [-> ->]; constructor]. Qed.

Lemma Matches_Lit l s bol eol : Matches (Lit l) bol eol s ↔ s = l.
Proof.
  revert s bol eol. induction l as [|c l IH]; intros s bol eol; simpl.
  - apply Matches_Eps_inv.
  - rewrite Matches_Seq_inv. split.
    + intros (s1 & s2 & -> & ->%Matches_Chr_inv & ->%IH). done.
    + intros ->. exists (String c ""), l. split_and!; [done|constructor|by apply IH].
Qed.

Lemma Matches_digit s bol eol :
  Matches digit bol eol s ↔ ∃ c, s = String c "" ∧ isDigit c = true.
Proof.
  unfold digit, isDigit. split.
  - inversion 1 as [| | | |? ? c ? ? [H1%N.leb_le H2%N.leb_le]| | | | | | |]; subst.
    exists c. split; [done|]. revert H1 H2. unfold code.
    change (N_of_ascii "0") with 48%N. change (N_of_ascii "9") with 57%N.
    intros -> ->. done.
  - intros (c & -> & [H1%N.leb_le H2%N.leb_le]%andb_true_iff).
    constructor. done.
Qed.

Lemma digits_cons n c d : isDigit c = true → digits n d → digits (S n) (String c d).
Proof.
  intros Hc [Hl Hd]. split; simpl; [by rewrite Hl|by constructor].
Qed.

Lemma Matches_Rep_digit n s bol eol : Matches (Rep n digit) bol eol s ↔ digits n s.
Proof.
  revert s bol eol. induction n as [|n IH]; intros s bol eol; simpl.
  - rewrite Matches_Eps_inv. split; [by intros ->|apply digits_0].
  - rewrite Matches_Seq_inv. split.
    + intros (s1 & s2 & -> & (c & -> & Hc)%Matches_digit & H2%IH).
      by apply digits_cons.
    + intros (c & d & -> & Hc & Hd)%digits_S.
      exists (String c ""), d. split_and!; [done| |by apply IH].
      apply Matches_digit. eauto.
Qed.

Lemma Matches_sep s bol eol : Matches sep bol eol s ↔ isSep s.
Proof.
  unfold sep, isSep. by rewrite Matches_Alt_inv, !Matches_Chr_inv.
Qed.

Lemma Matches_extension s bol eol : Matches extension bol eol s ↔ isExtension s.
Proof.
  unfold extension, isExtension, Opt.
  rewrite Matches_Alt_inv, Matches_Lit, Matches_Seq_inv. split.
  - intros [->|(s1 & s2 & -> & ->%Matches_Lit & H)]; [by left|].
    apply Matches_Alt_inv in H as [->%Matches_Chr_inv| ->%Matches_Eps_inv]; auto.
  - intros [->|[->| ->]]; [by left|right..].
    + exists "xls", "". split_and!; [done|by apply Matches_Lit|].
      apply M_AltR. constructor.
    + exists "xls", "x". split_and!; [done|by apply Matches_Lit|].
      apply M_AltL. constructor.
Qed.

Lemma Matches_Star_Dot s bol eol : Matches (Star Dot) bol eol s ↔ oneLine s.
Proof.
  unfold oneLine. split.
  - remember (Star Dot) as r eqn:Hr. induction 1; try done.
    + simpl. apply not_elem_of_nil.
    + injection Hr as ->. inversion H; subst.
      change (String c "" +:+ s2) with (String c s2). simpl.
      apply not_elem_of_cons. auto.
  - revert bol. induction s as [|c s IH]; intros bol; simpl.
    + intros _. constructor.
    + intros [Hc Hs]%not_elem_of_cons.
      change (String c s) with (String c "" +:+ s).
      apply M_StarS; [by constructor|by apply IH].
Qed.

Lemma Matches_Star_AnyByte s bol eol : Matches (Star AnyByte) bol eol s.
Proof.
  revert bol. induction s as [|c s IH]; intros bol; [constructor|].
  change (String c s) with (String c "" +:+ s).
  apply M_StarS; [constructor|apply IH].
Qed.

Lemma isEmpty_true s : isEmpty s = true → s = "".
Proof. by destruct s. Qed.

(** The anchors make the search of [MatchString] a match of the whole
    name. *)
Lemma MatchString_DefaultPattern s :
  MatchString DefaultPattern s = true
  ↔ Matches (Alt xlsNames (Alt ehtNames avtNames)) true true s.
Proof.
  unfold MatchString. rewrite matchWhole_matchTo, matchTo_spec.
  change DefaultPattern
    with (Seq Bol (Seq (Alt xlsNames (Alt ehtNames avtNames)) Eol)).
  split.
  - intros (p & r & -> & _ & H)%Matches_Seq_inv.
    apply Matches_Seq_inv in H as (m & q & -> & H & _).
    apply Matches_Seq_inv in H as (m1 & m2 & -> & H1 & H).
    apply Matches_Bol_inv in H1 as [-> Hp].
    apply Matches_Seq_inv in H as (x & y & -> & H & H2).
    apply Matches_Eol_inv in H2 as [-> Hq].
    simpl in Hp, Hq. apply isEmpty_true in Hp as ->.
    apply isEmpty_true in Hq as ->.
    simpl in H. rewrite !append_nil_r. exact H.
  - intros H.
    apply Matches_Seq_inv. exists "", s. split_and!;
      [done|apply Matches_Star_AnyByte|].
    apply Matches_Seq_inv. exists s, "". split_and!;
      [by rewrite append_nil_r| |apply Matches_Star_AnyByte].
    apply Matches_Seq_inv. exists "", s. split_and!; [done|constructor|].
    apply Matches_Seq_inv. exists s, "". split_and!;
      [by rewrite append_nil_r|exact H|constructor].
Qed.

Lemma Matches_xlsNames s bol :
  Matches xlsNames bol true s
  ↔ ∃ a b, s = a +:+ "-xls-" +:+ b ∧ oneLine a ∧ oneLine b.
Proof.
  unfold xlsNames. split.
  - intros (a & r & -> & Ha%Matches_Star_Dot & H)%Matches_Seq_inv.
    apply Matches_Seq_inv in H as (l & r' & -> & ->%Matches_Lit & H).
    apply Matches_Seq_inv in H as (b & e & -> & Hb%Matches_Star_Dot & He).
    apply Matches_Eol_inv in He as [-> _].
    exists a, b. by rewrite append_nil_r.
  - intros (a & b & -> & Ha & Hb).
    apply Matches_Seq_inv. exists a, ("-xls-" +:+ b).
    split_and!; [done|by apply Matches_Star_Dot|].
    apply Matches_Seq_inv. exists "-xls-", b.
    split_and!; [done|by apply Matches_Lit|].
    apply Matches_Seq_inv. exists b, "".
    split_and!; [by rewrite append_nil_r|by apply Matches_Star_Dot|constructor].
Qed.

Lemma Matches_ehtNames s bol eol :
  Matches ehtNames bol eol s
  ↔ ∃ d ext, s = "EHT_" +:+ d +:+ "." +:+ ext ∧ ehtDate d ∧ isExtension ext.
Proof.
  unfold ehtNames, ehtDate. split.
  - intros (l & r & -> & ->%Matches_Lit & H)%Matches_Seq_inv.
    apply Matches_Seq_inv in H as (d & r' & -> & Hd & H).
    apply Matches_Seq_inv in H as (p & ext & -> & ->%Matches_Chr_inv
                                   & Hext%Matches_extension).
    exists d, ext. split_and!; [done| |done].
    apply Matches_Alt_inv in Hd as [H8%Matches_Rep_digit|Hd]; [by left|right].
    apply Matches_Alt_inv in Hd as [Hd|Hd]; [left|right].
    + apply Matches_Seq_inv in Hd as (y & r1 & -> & Hy%Matches_Rep_digit & Hd).
      apply Matches_Seq_inv in Hd as (s1 & r2 & -> & Hs1%Matches_sep & Hd).
      apply Matches_Seq_inv in Hd as (m & r3 & -> & Hm%Matches_Rep_digit & Hd).
      apply Matches_Seq_inv in Hd as (s2 & dd & -> & Hs2%Matches_sep
                                      & Hdd%Matches_Rep_digit).
      by exists y, s1, m, s2, dd.
    + apply Matches_Seq_inv in Hd as (t & n & -> & ->%Matches_Chr_inv
                                      & Hn%Matches_Rep_digit).
      by exists n.
  - intros (d & ext & -> & Hd & Hext).
    apply Matches_Seq_inv. exists "EHT_", (d +:+ "." +:+ ext).
    split_and!; [done|by apply Matches_Lit|].
    apply Matches_Seq_inv. exists d, ("." +:+ ext). split_and!; [done| |].
    + apply Matches_Alt_inv.
      destruct Hd as [H8|[(y & s1 & m & s2 & dd & -> & Hy & Hs1 & Hm & Hs2 & Hdd)
                         |(n & -> & Hn)]].
      * left. by apply Matches_Rep_digit.
      * right. apply M_AltL.
        apply Matches_Seq_inv. exists y, (s1 +:+ m +:+ s2 +:+ dd).
        split_and!; [done|by apply Matches_Rep_digit|].
        apply Matches_Seq_inv. exists s1, (m +:+ s2 +:+ dd).
        split_and!; [done|by apply Matches_sep|].
        apply Matches_Seq_inv. exists m, (s2 +:+ dd).
        split_and!; [done|by apply Matches_Rep_digit|].
        apply Matches_Seq_inv. exists s2, dd.
        split_and!; [done|by apply Matches_sep|by apply Matches_Rep_digit].
      * right. apply M_AltR.
        apply Matches_Seq_inv. exists "2", n.
        split_and!; [done|constructor|by apply Matches_Rep_digit].
    + apply Matches_Seq_inv. exists ".", ext.
      split_and!; [done|constructor|by apply Matches_extension].
Qed.

Lemma Matches_avtNames s bol eol :
  Matches avtNames bol eol s
  ↔ ∃ m n y ext,
      s = "AVT_" +:+ m +:+ "_" +:+ n +:+ "_2" +:+ y +:+ "." +:+ ext
      ∧ digits 2 m ∧ digits 2 n ∧ digits 3 y ∧ isExtension ext.
Proof.
  unfold avtNames. split.
  - intros (l & r & -> & ->%Matches_Lit & H)%Matches_Seq_inv.
    apply Matches_Seq_inv in H as (m & r1 & -> & Hm%Matches_Rep_digit & H).
    apply Matches_Seq_inv in H as (u1 & r2 & -> & ->%Matches_Chr_inv & H).
    apply Matches_Seq_inv in H as (n & r3 & -> & Hn%Matches_Rep_digit & H).
    apply Matches_Seq_inv in H as (u2 & r4 & -> & ->%Matches_Chr_inv & H).
    apply Matches_Seq_inv in H as (t & r5 & -> & ->%Matches_Chr_inv & H).
    apply Matches_Seq_inv in H as (y & r6 & -> & Hy%Matches_Rep_digit & H).
    apply Matches_Seq_inv in H as (p & ext & -> & ->%Matches_Chr_inv
                                   & Hext%Matches_extension).
    by exists m, n, y, ext.
  - intros (m & n & y & ext & -> & Hm & Hn & Hy & Hext).
    apply Matches_Seq_inv.
    exists "AVT_", (m +:+ "_" +:+ n +:+ "_2" +:+ y +:+ "." +:+ ext).
    split_and!; [done|by apply Matches_Lit|].
    apply Matches_Seq_inv. exists m, ("_" +:+ n +:+ "_2" +:+ y +:+ "." +:+ ext).
    split_and!; [done|by apply Matches_Rep_digit|].
    apply Matches_Seq_inv. exists "_", (n +:+ "_2" +:+ y +:+ "." +:+ ext).
    split_and!; [done|constructor|].
    apply Matches_Seq_inv. exists n, ("_2" +:+ y +:+ "." +:+ ext).
    split_and!; [done|by apply Matches_Rep_digit|].
    apply Matches_Seq_inv. exists "_", ("2" +:+ y +:+ "." +:+ ext).
    split_and!; [done|constructor|].
    apply Matches_Seq_inv. exists "2", (y +:+ "." +:+ ext).
    split_and!; [done|constructor|].
    apply Matches_Seq_inv. exists y, ("." +:+ ext).
    split_and!; [done|by apply Matches_Rep_digit|].
    apply Matches_Seq_inv. exists ".", ext.
    split_and!; [done|constructor|by apply Matches_extension].
Qed.

(** X19.  The names [DefaultPattern] matches are exactly these: the
    names of one line with [-xls-] in them; [EHT_], a date, a dot and
    an extension, the date being eight digits, or four, two and two
    digits with [_] or [-] between them, or [2] and five digits; and
    [AVT_NN_NN_2NNN], a dot and an extension.  The extensions are
    [pdf], [xls] and [xlsx]. *)
Theorem DefaultPattern_language s :
  MatchString DefaultPattern s = true
  ↔ (∃ a b, s = a +:+ "-xls-" +:+ b ∧ oneLine a ∧ oneLine b)
    ∨ (∃ d ext, s = "EHT_" +:+ d +:+ "." +:+ ext ∧ ehtDate d ∧ isExtension ext)
    ∨ (∃ m n y ext,
         s = "AVT_" +:+ m +:+ "_" +:+ n +:+ "_2" +:+ y +:+ "." +:+ ext
         ∧ digits 2 m ∧ digits 2 n ∧ digits 3 y ∧ isExtension ext).
Proof.
  by rewrite MatchString_DefaultPattern, !Matches_Alt_inv, Matches_xlsNames,
    Matches_ehtNames, Matches_avtNames.
Qed.

(** *** A request that cannot be built *)

Lemma step_groupErr_first st trace :
  groupErr (foldl step st trace)
  = match groupErr st with
    | Some err => Some err
    | None => head (returns trace.*2)
    end.
Proof.
  unfold returns.
  revert st. induction trace as [|[i ev] trace IH]; intros st; simpl.
  - by destruct (groupErr st).
  - destruct ev as [|err|loc|err]; cbn [step]; rewrite IH; simpl.
    + done.
    + done.
    + by destruct (_ <? _)%nat.
    + destruct (groupErr st) eqn:Hg; simpl; by rewrite ?Hg.
Qed.

Lemma task_returns_inv w pattern i v err :
  err ∈ returns (task w pattern i v)
  ↔ ∃ sub e, url_Parse w v = inr sub ∧ Scheme sub ≠ ""
             ∧ http_NewRequest w (URL_String sub) = Some e
             ∧ err = Wrap (URL_String sub) e.
Proof.
  unfold task, IsAbs. split.
  - destruct (url_Parse w v) as [e|sub]; [by intros ?%elem_of_nil|].
    destruct (String.eqb_spec (Scheme sub) "") as [?|Hs];
      [by intros ?%elem_of_nil|]. simpl.
    destruct (http_NewRequest w (URL_String sub)) as [e|] eqn:Hreq.
    + intros ->%list_elem_of_singleton. by exists sub, e.
    + destruct (noRedir_Do w i) as [failed resp].
      unfold returns. rewrite omap_app.
      fold (returns (flat_map
                       (λ err, [Read; Assign (Wrap (URL_String sub) err)])
                       failed)).
      rewrite attempts_returns.
      simpl. repeat case_match; by intros ?%elem_of_nil.
  - intros (sub & e & -> & Hs & Hreq & ->).
    apply String.eqb_neq in Hs. rewrite Hs, Hreq. simpl.
    by apply list_elem_of_singleton.
Qed.

Lemma tasks_returns_inv w pattern candidates err :
  err ∈ returns (concat (imap (task w pattern) candidates))
  ↔ ∃ i v, candidates !! i = Some v ∧ err ∈ returns (task w pattern i v).
Proof.
  unfold returns. rewrite list_elem_of_omap. split.
  - intros (ev & Hev & Herr).
    apply list_elem_of_In, in_concat in Hev as (t & Ht & Hev).
    apply list_elem_of_In, elem_of_lookup_imap in Ht as (i & v & -> & Hv).
    exists i, v. split; [done|].
    apply list_elem_of_omap. exists ev. split; [by apply list_elem_of_In|done].
  - intros (i & v & Hv & (ev & Hev & Herr)%list_elem_of_omap).
    exists ev. split; [|done].
    apply list_elem_of_In, in_concat. exists (task w pattern i v).
    split; apply list_elem_of_In; [by apply elem_of_lookup_imap_2|done].
Qed.

(** X20.  When the request for one of the candidates cannot be built,
    [SearchXLSURL] returns no URL and the error of such a request
    (which of them, when there are several, is up to the order of the
    tasks), wrapped with the candidate's URL, whatever the other
    candidates redirect to. *)
Theorem SearchXLSURL_request_error sort w searchURL pattern resp v sub e :
  crawls w searchURL resp →
  v ∈ candidatesOf (tokens resp) →
  url_Parse w v = inr sub →
  Scheme sub ≠ "" →
  http_NewRequest w (URL_String sub) = Some e →
  ∃ v' sub' e',
    v' ∈ candidatesOf (tokens resp)
    ∧ url_Parse w v' = inr sub'
    ∧ http_NewRequest w (URL_String sub') = Some e'
    ∧ SearchXLSURL sort w searchURL pattern
      = ("", Some (Wrap (URL_String sub') e')).
Proof.
  intros (Hurl & Hreq & Hdo & Hst & Htok) Hv Hsub Hs He.
  unfold SearchXLSURL.
  apply String.eqb_neq in Hurl. rewrite Hurl, Hreq, Hdo, Htok.
  destruct (Z.ltb_spec 399 (StatusCode resp)); [lia|].
  set (tasks := imap (task w pattern) (candidatesOf (tokens resp))).
  set (trace := interleave (schedule w) tasks).
  rewrite step_groupErr_first. simpl.
  assert (returns trace.*2 ≡ₚ returns (concat tasks)) as Hperm.
  { unfold returns, trace. by rewrite interleave_perm. }
  apply list_elem_of_lookup in Hv as [i Hi].
  assert (Wrap (URL_String sub) e ∈ returns (concat tasks)) as Hin.
  { apply tasks_returns_inv. exists i, v. split; [done|].
    apply task_returns_inv. by exists sub, e. }
  destruct (returns trace.*2) as [|err rest] eqn:Hr.
  { rewrite <- Hperm in Hin. by apply elem_of_nil in Hin. }
  simpl.
  assert (err ∈ returns (concat tasks)) as Herr.
  { rewrite <- Hperm. apply list_elem_of_here. }
  apply tasks_returns_inv in Herr as (i' & v' & Hv' & Herr).
  apply task_returns_inv in Herr as (sub' & e' & Hsub' & _ & He' & ->).
  exists v', sub', e'. split_and!; [by eapply list_elem_of_lookup_2|done..].
Qed.

Lemma SearchXLSURL_request_error_witness :
  ∃ v' sub' e',
    v' ∈ candidatesOf (tokens (pageOf [anchor "https://www.giro.hu/documents/1";
                                      anchor "https://www.giro.hu/documents/2"]))
    ∧ url_Parse brokenLink v' = inr sub'
    ∧ http_NewRequest brokenLink (URL_String sub') = Some e'
    ∧ SearchXLSURL insertionSort brokenLink DefaultURL DefaultPattern
      = ("", Some (Wrap (URL_String sub') e')).
Proof.
  apply (SearchXLSURL_request_error insertionSort brokenLink DefaultURL
           DefaultPattern _ "https://www.giro.hu/documents/2"
           {| Scheme := "https";
              URL_String := "https://www.giro.hu/documents/2" |}
           (errorString "net/http: invalid request")).
  - split_and!; [discriminate|reflexivity..|vm_compute; discriminate|reflexivity].
  - apply list_elem_of_lookup. by exists 1%nat.
  - reflexivity.
  - discriminate.
  - reflexivity.
Defined.
